(** * Keymanager API contract

    A shallow embedding of [packages/api/src/keymanager/routes.ts]: the status
    enumerations, the [Api] method set, the static route table [routesData],
    the wire request shapes [ReqTypes], the request serializers
    [getReqSerializers], the return types [getReturnTypes] and the scalar
    validator [parseGasLimit].

    Strings are [string] (sequences of 8-bit code units; the source's inputs
    of interest are ASCII), JS objects used as tables are association lists
    in source order, TS string enums are inductive types together with their
    string value, and code that can throw returns a [result]. *)

From Stdlib Require Import ZArith List Ascii String Bool Lia.
From stdpp Require Import base option list strings gmap.

Local Open Scope string_scope.
Local Open Scope Z_scope.

(** ** Status taxonomy (routes.ts, lines 14-54) *)

Module ImportStatus.
Inductive t := imported | duplicate | error.

Definition value (s : t) : string :=
  match s with
  | imported => "imported"
  | duplicate => "duplicate"
  | error => "error"
  end.

Definition members : list t := [imported; duplicate; error].
End ImportStatus.

Module DeletionStatus.
Inductive t := deleted | not_active | not_found | error.

Definition value (s : t) : string :=
  match s with
  | deleted => "deleted"
  | not_active => "not_active"
  | not_found => "not_found"
  | error => "error"
  end.

Definition members : list t := [deleted; not_active; not_found; error].
End DeletionStatus.

Module ImportRemoteKeyStatus.
Inductive t := imported | duplicate | error.

Definition value (s : t) : string :=
  match s with
  | imported => "imported"
  | duplicate => "duplicate"
  | error => "error"
  end.

Definition members : list t := [imported; duplicate; error].
End ImportRemoteKeyStatus.

Module DeleteRemoteKeyStatus.
Inductive t := deleted | not_found | error.

Definition value (s : t) : string :=
  match s with
  | deleted => "deleted"
  | not_found => "not_found"
  | error => "error"
  end.

Definition members : list t := [deleted; not_found; error].
End DeleteRemoteKeyStatus.

(** [ResponseStatus<Status>]: a per-item outcome with an optional message. *)
Record ResponseStatus (Status : Type) := mkResponseStatus {
  status : Status;
  message : option string
}.
Arguments mkResponseStatus {Status} _ _.
Arguments status {Status} _.
Arguments message {Status} _.

(** Opaque string payloads of the source. *)
Abbreviation KeystoreStr := string (only parsing).
Abbreviation SlashingProtectionData := string (only parsing).
Abbreviation PubkeyHex := string (only parsing).

(** ** The method set of [Api] (routes.ts, lines 105-205) *)

Module Api.
Inductive method :=
| listKeys | importKeystores | deleteKeys
| listRemoteKeys | importRemoteKeys | deleteRemoteKeys
| listFeeRecipient | setFeeRecipient | deleteFeeRecipient
| getGasLimit | setGasLimit | deleteGasLimit.

Definition name (m : method) : string :=
  match m with
  | listKeys => "listKeys"
  | importKeystores => "importKeystores"
  | deleteKeys => "deleteKeys"
  | listRemoteKeys => "listRemoteKeys"
  | importRemoteKeys => "importRemoteKeys"
  | deleteRemoteKeys => "deleteRemoteKeys"
  | listFeeRecipient => "listFeeRecipient"
  | setFeeRecipient => "setFeeRecipient"
  | deleteFeeRecipient => "deleteFeeRecipient"
  | getGasLimit => "getGasLimit"
  | setGasLimit => "setGasLimit"
  | deleteGasLimit => "deleteGasLimit"
  end.

(** The members of the type, in declaration order. *)
Definition methods : list method :=
  [ listKeys; importKeystores; deleteKeys;
    listRemoteKeys; importRemoteKeys; deleteRemoteKeys;
    listFeeRecipient; setFeeRecipient; deleteFeeRecipient;
    getGasLimit; setGasLimit; deleteGasLimit ].

#[global] Instance method_eq_dec : EqDecision method.
Proof. solve_decision. Defined.
End Api.

(** ** Route table (routes.ts, lines 207-223) *)

Inductive HttpMethod := GET | POST | DELETE.

#[global] Instance HttpMethod_eq_dec : EqDecision HttpMethod.
Proof. solve_decision. Defined.

Record RouteDef := mkRoute {
  url : string;
  method : HttpMethod;
  statusOk : option Z
}.

#[global] Instance RouteDef_eq_dec : EqDecision RouteDef.
Proof. solve_decision. Defined.

(** The object literal, one pair per property, in source order. *)
Definition routesData : list (string * RouteDef) :=
  [ ("listKeys", mkRoute "/eth/v1/keystores" GET None);
    ("importKeystores", mkRoute "/eth/v1/keystores" POST None);
    ("deleteKeys", mkRoute "/eth/v1/keystores" DELETE None);

    ("listRemoteKeys", mkRoute "/eth/v1/remotekeys" GET None);
    ("importRemoteKeys", mkRoute "/eth/v1/remotekeys" POST None);
    ("deleteRemoteKeys", mkRoute "/eth/v1/remotekeys" DELETE None);

    ("listFeeRecipient", mkRoute "/eth/v1/validator/{pubkey}/feerecipient" GET None);
    ("setFeeRecipient", mkRoute "/eth/v1/validator/{pubkey}/feerecipient" POST (Some 202));
    ("deleteFeeRecipient", mkRoute "/eth/v1/validator/{pubkey}/feerecipient" DELETE (Some 204));

    ("getGasLimit", mkRoute "/eth/v1/validator/{pubkey}/gas_limit" GET None);
    ("setGasLimit", mkRoute "/eth/v1/validator/{pubkey}/gas_limit" POST (Some 202));
    ("deleteGasLimit", mkRoute "/eth/v1/validator/{pubkey}/gas_limit" DELETE (Some 204)) ].

(** Property lookup on the object literal: the entry stored under a key. *)
Fixpoint routeOf (key : string) (table : list (string * RouteDef)) : option RouteDef :=
  match table with
  | [] => None
  | (k, r) :: rest => if String.eqb k key then Some r else routeOf key rest
  end.

(** The entries stored under a key (an object has at most one). *)
Definition routesNamed (key : string) : list (string * RouteDef) :=
  List.filter (fun e => String.eqb (fst e) key) routesData.

(** Modelled from the spec: the default success code that the route helper
    (in [../utils], not part of this file) applies when [statusOk] is left
    out; section 4.3 gives 200 for GET, POST and DELETE alike. *)
Definition defaultStatusOk (m : HttpMethod) : Z :=
  match m with GET => 200 | POST => 200 | DELETE => 200 end.

Definition successCode (r : RouteDef) : Z :=
  match statusOk r with
  | Some c => c
  | None => defaultStatusOk (method r)
  end.

(** The keys whose route overrides the success code to [c]. *)
Definition overridesTo (c : Z) : list string :=
  map fst (List.filter (fun e => bool_decide (statusOk (snd e) = Some c)) routesData).

(** The dispatch key of a route. *)
Definition dispatchKey (e : string * RouteDef) : HttpMethod * string :=
  (method (snd e), url (snd e)).

(** ** JavaScript values used by the validator

    [number] values are modelled by the exact decimal value they denote:
    [Finite n d] is [n / 10^d], kept canonical ([d = 0], or [n] not a
    multiple of ten).  The value of a numeric string is its mathematical
    value (ECMAScript StringToNumber) and a number prints through
    ECMAScript Number::toString; the final rounding of a literal to binary64
    is not modelled.  Both agree with the language on every decimal of at
    most 15 significant digits inside the binary64 range, and in particular
    on all integers of magnitude up to [2^53].  The sign of zero is not
    tracked: [-0 === 0] holds and both print as ["0"]. *)

Inductive JsNumber :=
| NaN
| Infinity (negative : bool)
| Finite (n : Z) (d : nat).

#[global] Instance JsNumber_eq_dec : EqDecision JsNumber.
Proof. solve_decision. Defined.

Definition ofZ (z : Z) : JsNumber := Finite z 0.

(** [n / 10^d] in canonical form. *)
Fixpoint normalize (n : Z) (d : nat) : JsNumber :=
  match d with
  | O => Finite n 0
  | S d' => if n mod 10 =? 0 then normalize (n / 10) d' else Finite n d
  end.

(** [m * 10^e] in canonical form. *)
Definition scaled (m e : Z) : JsNumber :=
  if 0 <=? e then Finite (m * 10 ^ e) 0 else normalize m (Z.to_nat (- e)).

Definition negate (x : JsNumber) : JsNumber :=
  match x with
  | NaN => NaN
  | Infinity b => Infinity (negb b)
  | Finite n d => Finite (- n) d
  end.

Definition isNaN (x : JsNumber) : bool :=
  match x with NaN => true | _ => false end.

(** [x === y] on numbers: [NaN] is equal to nothing. *)
Definition strictEq (x y : JsNumber) : bool :=
  match x, y with
  | NaN, _ | _, NaN => false
  | _, _ => bool_decide (x = y)
  end.

(** *** Characters *)

Definition charCode (c : ascii) : Z := Z.of_N (N_of_ascii c).

(** WhiteSpace and LineTerminator code units below 256: TAB, LF, VT, FF, CR,
    SP and NBSP. *)
Definition isWhiteSpace (c : ascii) : bool :=
  let n := charCode c in
  ((9 <=? n) && (n <=? 13)) || (n =? 32) || (n =? 160).

Definition isDigit (c : ascii) : bool :=
  let n := charCode c in (48 <=? n) && (n <=? 57).

(** The value of a digit in radix 16, letters in either case. *)
Definition hexValue (c : ascii) : option Z :=
  let n := charCode c in
  if (48 <=? n) && (n <=? 57) then Some (n - 48)
  else if (97 <=? n) && (n <=? 102) then Some (n - 87)
  else if (65 <=? n) && (n <=? 70) then Some (n - 55)
  else None.

Definition digitIn (radix : Z) (c : ascii) : option Z :=
  match hexValue c with
  | Some v => if v <? radix then Some v else None
  | None => None
  end.

(** *** String.prototype.trim *)

Fixpoint trimStart (s : string) : string :=
  match s with
  | String c r => if isWhiteSpace c then trimStart r else s
  | EmptyString => EmptyString
  end.

Fixpoint trimEnd (s : string) : string :=
  match s with
  | EmptyString => EmptyString
  | String c r =>
      match trimEnd r with
      | EmptyString => if isWhiteSpace c then EmptyString else String c EmptyString
      | r' => String c r'
      end
  end.

Definition trim (s : string) : string := trimEnd (trimStart s).

(** *** Reading digits *)

(** The longest prefix of decimal digits, and what follows it. *)
Fixpoint spanDigits (s : string) : string * string :=
  match s with
  | String c r =>
      if isDigit c then let (ds, rest) := spanDigits r in (String c ds, rest)
      else (EmptyString, s)
  | EmptyString => (EmptyString, EmptyString)
  end.

(** The value of a string of digits of the radix, most significant first;
    [None] when a character is not a digit of the radix. *)
Fixpoint digitsValue (radix : Z) (acc : Z) (s : string) : option Z :=
  match s with
  | EmptyString => Some acc
  | String c r =>
      match digitIn radix c with
      | Some v => digitsValue radix (radix * acc + v) r
      | None => None
      end
  end.

Definition strLen (s : string) : Z := Z.of_nat (String.length s).

(** *** StringToNumber *)

(** [0x], [0o] and [0b] literals: a prefix and at least one digit. *)
Definition nonDecimalLiteral (t : string) : option JsNumber :=
  match t with
  | String "0" (String p ds) =>
      let radix :=
        if bool_decide (p = "x"%char) || bool_decide (p = "X"%char) then Some 16
        else if bool_decide (p = "o"%char) || bool_decide (p = "O"%char) then Some 8
        else if bool_decide (p = "b"%char) || bool_decide (p = "B"%char) then Some 2
        else None in
      match radix, ds with
      | Some r, String _ _ =>
          match digitsValue r 0 ds with
          | Some v => Some (ofZ v)
          | None => Some NaN
          end
      | Some _, EmptyString => Some NaN
      | None, _ => None
      end
  | _ => None
  end.

(** ExponentPart: [e] or [E], an optional sign, at least one digit, and
    nothing after it.  An absent exponent is [0]. *)
Definition exponentPart (r : string) : option Z :=
  match r with
  | EmptyString => Some 0
  | String c r1 =>
      if bool_decide (c = "e"%char) || bool_decide (c = "E"%char) then
        let (neg, r2) :=
          match r1 with
          | String "-" r2 => (true, r2)
          | String "+" r2 => (false, r2)
          | _ => (false, r1)
          end in
        match r2 with
        | EmptyString => None
        | _ =>
            match digitsValue 10 0 r2 with
            | Some e => Some (if neg : bool then - e else e)
            | None => None
            end
        end
      else None
  end.

(** StrUnsignedDecimalLiteral: [Infinity], or digits with an optional
    fraction and an optional exponent; one of the integer and the fraction
    part must have a digit. *)
Definition unsignedDecimalLiteral (t : string) : JsNumber :=
  if String.eqb t "Infinity" then Infinity false
  else
    let (ip, r1) := spanDigits t in
    let (fp, r2) :=
      match r1 with
      | String "." r => spanDigits r
      | _ => (EmptyString, r1)
      end in
    if String.eqb ip EmptyString && String.eqb fp EmptyString then NaN
    else
      match digitsValue 10 0 (ip ++ fp), exponentPart r2 with
      | Some m, Some e => scaled m (e - strLen fp)
      | _, _ => NaN
      end.

Definition decimalLiteral (t : string) : JsNumber :=
  match t with
  | String "-" r => negate (unsignedDecimalLiteral r)
  | String "+" r => unsignedDecimalLiteral r
  | _ => unsignedDecimalLiteral t
  end.

(** [Number(s)] on a string. *)
Definition stringToNumber (s : string) : JsNumber :=
  let t := trim s in
  if String.eqb t EmptyString then ofZ 0
  else
    match nonDecimalLiteral t with
    | Some x => x
    | None => decimalLiteral t
    end.

(** *** Number::toString, radix 10 *)

Definition digitChar (d : Z) : ascii := ascii_of_N (Z.to_N (48 + d)).

(** The decimal digits of [n], least significant first, put in front of
    [acc]; [fuel] bounds the number of digits. *)
Fixpoint digitsFrom (fuel : nat) (n : Z) (acc : string) : string :=
  match fuel with
  | O => acc
  | S fuel' =>
      let acc' := String (digitChar (n mod 10)) acc in
      if n <? 10 then acc' else digitsFrom fuel' (n / 10) acc'
  end.

(** The decimal digits of a natural number, ["0"] for zero.  A number has
    no more decimal digits than binary ones. *)
Definition digitsOf (n : Z) : string :=
  digitsFrom (S (Z.to_nat (Z.log2 n))) n EmptyString.

Fixpoint zeros (n : nat) : string :=
  match n with O => EmptyString | S n' => String "0" (zeros n') end.

Fixpoint stripTrailingZeros (s : string) : string :=
  match s with
  | EmptyString => EmptyString
  | String c r =>
      match stripTrailingZeros r with
      | EmptyString => if bool_decide (c = "0"%char) then EmptyString else String c EmptyString
      | r' => String c r'
      end
  end.

Fixpoint takeStr (n : nat) (s : string) : string :=
  match n, s with
  | S n', String c r => String c (takeStr n' r)
  | _, _ => EmptyString
  end.

Fixpoint dropStr (n : nat) (s : string) : string :=
  match n, s with
  | S n', String _ r => dropStr n' r
  | _, _ => s
  end.

(** A positive [m / 10^d]: with [s] the [k] significant digits and [n] the
    position of the decimal point, the four layouts of the standard. *)
Definition positiveToString (m : Z) (d : nat) : string :=
  let ds := digitsOf m in
  let s := stripTrailingZeros ds in
  let k := strLen s in
  let n := strLen ds - Z.of_nat d in
  if (k <=? n) && (n <=? 21) then s ++ zeros (Z.to_nat (n - k))
  else if (0 <? n) && (n <=? 21) then
    takeStr (Z.to_nat n) s ++ "." ++ dropStr (Z.to_nat n) s
  else if (-6 <? n) && (n <=? 0) then "0." ++ zeros (Z.to_nat (- n)) ++ s
  else
    let e := n - 1 in
    let exponent := (if e <? 0 then "e-" else "e+") ++ digitsOf (Z.abs e) in
    if k =? 1 then s ++ exponent
    else takeStr 1 s ++ "." ++ dropStr 1 s ++ exponent.

Definition toString (x : JsNumber) : string :=
  match x with
  | NaN => "NaN"
  | Infinity false => "Infinity"
  | Infinity true => "-Infinity"
  | Finite m d =>
      if m =? 0 then "0"
      else if m <? 0 then "-" ++ positiveToString (- m) d
      else positiveToString m d
  end.

(** ** Input validator (routes.ts, lines 353-362) *)

Inductive result (A : Type) :=
| Return (a : A)
| Throw (msg : string).
Arguments Return {A} _.
Arguments Throw {A} _.

Definition isThrow {A} (r : result A) : bool :=
  match r with Throw _ => true | Return _ => false end.

(** The declared parameter type [string | number]. *)
Inductive GasLimitInput :=
| InString (s : string)
| InNumber (n : JsNumber).

Definition typeOf (v : GasLimitInput) : string :=
  match v with InString _ => "string" | InNumber _ => "number" end.

(** The template literal [`${v}`]. *)
Definition template (v : GasLimitInput) : string :=
  match v with InString s => s | InNumber n => toString n end.

(** [Number(v)]. *)
Definition Number (v : GasLimitInput) : JsNumber :=
  match v with InString s => stringToNumber s | InNumber n => n end.

Definition parseGasLimit (gasLimitInput : GasLimitInput) : result JsNumber :=
  if (negb (String.eqb (typeOf gasLimitInput) "string")
      && negb (String.eqb (typeOf gasLimitInput) "number"))
     || String.eqb (trim (template gasLimitInput)) EmptyString
  then Throw "Not valid Gas Limit"
  else
    let gasLimit := Number gasLimitInput in
    if isNaN gasLimit || strictEq gasLimit (ofZ 0)
    then Throw ("Gas Limit is not valid gasLimit=" ++ toString gasLimit)
    else Return gasLimit.

(** ** Wire request shapes: [ReqTypes] (routes.ts, lines 227-253) *)

(** The fragment of TypeScript types the request shapes are written in;
    a field carries its name, whether it is optional ([?]) and its type. *)
Inductive TsType :=
| TString
| TArray (elem : TsType)
| TObject (fields : list Field)
with Field :=
| mkField (name : string) (isOptional : bool) (type : TsType).

Definition required (name : string) (t : TsType) : Field := mkField name false t.
Definition optional (name : string) (t : TsType) : Field := mkField name true t.

Definition fieldName (f : Field) : string := let (n, _, _) := f in n.
Definition fieldOptional (f : Field) : bool := let (_, o, _) := f in o.
Definition fieldType (f : Field) : TsType := let (_, _, t) := f in t.

(** [Pick<SignerDefinition, "pubkey" | "url">]; [PubkeyHex] is [string]. *)
Definition SignerDefinition_pubkey_url : TsType :=
  TObject [required "pubkey" TString; required "url" TString].

(** Modelled from the spec: [ReqEmpty] is declared in [../utils]; it is the
    request with neither path parameters nor body. *)
Definition ReqEmpty : TsType := TObject [].

Definition ReqTypes : list (string * TsType) :=
  [ ("listKeys", ReqEmpty);
    ("importKeystores",
      TObject [required "body" (TObject
        [ required "keystores" (TArray TString);
          required "passwords" (TArray TString);
          optional "slashing_protection" TString ])]);
    ("deleteKeys",
      TObject [required "body" (TObject [required "pubkeys" (TArray TString)])]);

    ("listRemoteKeys", ReqEmpty);
    ("importRemoteKeys",
      TObject [required "body" (TObject
        [required "remote_keys" (TArray SignerDefinition_pubkey_url)])]);
    ("deleteRemoteKeys",
      TObject [required "body" (TObject [required "pubkeys" (TArray TString)])]);

    ("listFeeRecipient",
      TObject [required "params" (TObject [required "pubkey" TString])]);
    ("setFeeRecipient",
      TObject [ required "params" (TObject [required "pubkey" TString]);
                required "body" (TObject [required "ethaddress" TString]) ]);
    ("deleteFeeRecipient",
      TObject [required "params" (TObject [required "pubkey" TString])]);

    ("getGasLimit",
      TObject [required "params" (TObject [required "pubkey" TString])]);
    ("setGasLimit",
      TObject [ required "params" (TObject [required "pubkey" TString]);
                required "body" (TObject [required "gas_limit" TString]) ]);
    ("deleteGasLimit",
      TObject [required "params" (TObject [required "pubkey" TString])]) ].

Fixpoint lookupKey {A} (key : string) (table : list (string * A)) : option A :=
  match table with
  | [] => None
  | (k, v) :: rest => if String.eqb k key then Some v else lookupKey key rest
  end.

(** A member of an object type. *)
Definition member (name : string) (t : TsType) : option (bool * TsType) :=
  match t with
  | TObject fields =>
      lookupKey name (map (fun f => (fieldName f, (fieldOptional f, fieldType f))) fields)
  | _ => None
  end.

Definition bodyOf (t : TsType) : option TsType := snd <$> member "body" t.
Definition paramsOf (t : TsType) : option TsType := snd <$> member "params" t.

(** What a route puts on the wire: its HTTP method, and the [params] and
    [body] members of its request type. *)
Definition wireShape (m : Api.method)
  : option (HttpMethod * option TsType * option TsType) :=
  match routeOf (Api.name m) routesData, lookupKey (Api.name m) ReqTypes with
  | Some r, Some t => Some (method r, paramsOf t, bodyOf t)
  | _, _ => None
  end.

(** Whether a path template has the placeholder [{name}]. *)
Fixpoint isPrefix (p s : string) : bool :=
  match p, s with
  | EmptyString, _ => true
  | String a p', String b s' => Ascii.eqb a b && isPrefix p' s'
  | String _ _, EmptyString => false
  end.

Fixpoint contains (p s : string) : bool :=
  isPrefix p s || match s with String _ s' => contains p s' | EmptyString => false end.

Definition hasPlaceholder (name : string) (template : string) : bool :=
  contains ("{" ++ name ++ "}") template.

(** ** Typed requests *)

(** A request with path parameters [P] and body [B]; [unit] stands for a
    part the request does not have. *)
Record ReqGeneric (P B : Type) := mkReq { params : P; body : B }.
Arguments mkReq {P B} _ _.
Arguments params {P B} _.
Arguments body {P B} _.

Module Wire.
Record PubkeyParams := mkPubkeyParams { pubkey : string }.

Record ImportKeystoresBody := mkImportKeystoresBody {
  keystores : list KeystoreStr;
  passwords : list string;
  slashing_protection : option SlashingProtectionData
}.

Record PubkeysBody := mkPubkeysBody { pubkeys : list string }.

(** [Pick<SignerDefinition, "pubkey" | "url">] *)
Record RemoteSigner := mkRemoteSigner {
  signer_pubkey : PubkeyHex;
  signer_url : string
}.

Record RemoteKeysBody := mkRemoteKeysBody { remote_keys : list RemoteSigner }.

Record EthaddressBody := mkEthaddressBody { ethaddress : string }.

Record GasLimitBody := mkGasLimitBody { gas_limit : string }.
End Wire.

(** The wire request of each operation, after [ReqTypes]. *)
Definition Req (m : Api.method) : Type :=
  match m with
  | Api.listKeys | Api.listRemoteKeys => ReqGeneric unit unit
  | Api.importKeystores => ReqGeneric unit Wire.ImportKeystoresBody
  | Api.deleteKeys | Api.deleteRemoteKeys => ReqGeneric unit Wire.PubkeysBody
  | Api.importRemoteKeys => ReqGeneric unit Wire.RemoteKeysBody
  | Api.listFeeRecipient | Api.deleteFeeRecipient
  | Api.getGasLimit | Api.deleteGasLimit => ReqGeneric Wire.PubkeyParams unit
  | Api.setFeeRecipient => ReqGeneric Wire.PubkeyParams Wire.EthaddressBody
  | Api.setGasLimit => ReqGeneric Wire.PubkeyParams Wire.GasLimitBody
  end.

(** The argument tuple of each operation, after the signatures in [Api]. *)
Definition Args (m : Api.method) : Type :=
  match m with
  | Api.listKeys | Api.listRemoteKeys => unit
  | Api.importKeystores =>
      (list KeystoreStr * list string * option SlashingProtectionData)%type
  | Api.deleteKeys | Api.deleteRemoteKeys => list string
  | Api.importRemoteKeys => list Wire.RemoteSigner
  | Api.listFeeRecipient | Api.deleteFeeRecipient
  | Api.getGasLimit | Api.deleteGasLimit => string
  | Api.setFeeRecipient => (string * string)%type
  | Api.setGasLimit => (string * JsNumber)%type
  end.

(** ** Request serializers: [getReqSerializers] (routes.ts, lines 255-327) *)

(** The two schema tags of [../utils] the serializers use. *)
Inductive Schema := SchemaObject | SchemaStringRequired.

Record SchemaDef := mkSchema {
  schemaParams : list (string * Schema);
  schemaBody : option Schema
}.

(** [parseReq] can throw, so it returns a [result]. *)
Record ReqSerializer (A R : Type) := mkSerializer {
  writeReq : A -> R;
  parseReq : R -> result A;
  schema : SchemaDef
}.
Arguments mkSerializer {A R} _ _ _.
Arguments writeReq {A R} _ _.
Arguments parseReq {A R} _ _.
Arguments schema {A R} _.

(** Modelled from the spec: [reqEmpty] is declared in [../utils]; it writes
    the request without parameters and body and parses it to the empty
    argument tuple. *)
Definition reqEmpty : ReqSerializer unit (ReqGeneric unit unit) :=
  mkSerializer (fun _ => mkReq tt tt) (fun _ => Return tt) (mkSchema [] None).

Definition pubkeyParamSerializer : ReqSerializer string (ReqGeneric Wire.PubkeyParams unit) :=
  mkSerializer
    (fun pubkey => mkReq (Wire.mkPubkeyParams pubkey) tt)
    (fun r => Return (Wire.pubkey (params r)))
    (mkSchema [("pubkey", SchemaStringRequired)] None).

Definition pubkeysBodySerializer : ReqSerializer (list string) (ReqGeneric unit Wire.PubkeysBody) :=
  mkSerializer
    (fun pubkeys => mkReq tt (Wire.mkPubkeysBody pubkeys))
    (fun r => Return (Wire.pubkeys (body r)))
    (mkSchema [] (Some SchemaObject)).

Definition getReqSerializers (m : Api.method) : ReqSerializer (Args m) (Req m) :=
  match m return ReqSerializer (Args m) (Req m) with
  | Api.listKeys => reqEmpty
  | Api.importKeystores =>
      mkSerializer
        (fun '(keystores, passwords, slashing_protection) =>
           mkReq tt (Wire.mkImportKeystoresBody keystores passwords slashing_protection))
        (fun r =>
           Return (Wire.keystores (body r), Wire.passwords (body r),
                   Wire.slashing_protection (body r)))
        (mkSchema [] (Some SchemaObject))
  | Api.deleteKeys => pubkeysBodySerializer

  | Api.listRemoteKeys => reqEmpty
  | Api.importRemoteKeys =>
      mkSerializer
        (fun remote_keys => mkReq tt (Wire.mkRemoteKeysBody remote_keys))
        (fun r => Return (Wire.remote_keys (body r)))
        (mkSchema [] (Some SchemaObject))
  | Api.deleteRemoteKeys => pubkeysBodySerializer

  | Api.listFeeRecipient => pubkeyParamSerializer
  | Api.setFeeRecipient =>
      mkSerializer
        (fun '(pubkey, ethaddress) =>
           mkReq (Wire.mkPubkeyParams pubkey) (Wire.mkEthaddressBody ethaddress))
        (fun r => Return (Wire.pubkey (params r), Wire.ethaddress (body r)))
        (mkSchema [("pubkey", SchemaStringRequired)] (Some SchemaObject))
  | Api.deleteFeeRecipient => pubkeyParamSerializer

  | Api.getGasLimit => pubkeyParamSerializer
  | Api.setGasLimit =>
      mkSerializer
        (fun '(pubkey, gasLimit) =>
           mkReq (Wire.mkPubkeyParams pubkey) (Wire.mkGasLimitBody (toString gasLimit)))
        (fun r =>
           match parseGasLimit (InString (Wire.gas_limit (body r))) with
           | Return gasLimit => Return (Wire.pubkey (params r), gasLimit)
           | Throw msg => Throw msg
           end)
        (mkSchema [("pubkey", SchemaStringRequired)] (Some SchemaObject))
  | Api.deleteGasLimit => pubkeyParamSerializer
  end.

(** The two round trips of a serializer, at a wire request and at an
    argument tuple. *)
Definition wireRoundTrip {A R} (s : ReqSerializer A R) (w : R) : Prop :=
  exists a, parseReq s w = Return a /\ writeReq s a = w.

Definition argsRoundTrip {A R} (s : ReqSerializer A R) (a : A) : Prop :=
  parseReq s (writeReq s a) = Return a.

(** ** Return types: [getReturnTypes] (routes.ts, lines 330-351) *)

Inductive JsonCase := snake | eth2.

(** The two value types of the container: [stringType] and [ssz.UintNum64]. *)
Inductive SszType := stringType | UintNum64.

Record ContainerType := mkContainerType {
  containerFields : list (string * SszType);
  jsonCase : JsonCase
}.

Inductive ReturnType :=
| jsonType (c : JsonCase)
| ContainerData (t : ContainerType).

Definition getReturnTypes : list (string * ReturnType) :=
  [ ("listKeys", jsonType snake);
    ("importKeystores", jsonType snake);
    ("deleteKeys", jsonType snake);

    ("listRemoteKeys", jsonType snake);
    ("importRemoteKeys", jsonType snake);
    ("deleteRemoteKeys", jsonType snake);

    ("listFeeRecipient", jsonType snake);
    ("getGasLimit",
      ContainerData
        (mkContainerType [("pubkey", stringType); ("gasLimit", UintNum64)] eth2)) ].

(** Modelled from the spec: [ssz.UintNum64] is declared in [@lodestar/types];
    its values are the unsigned 64-bit integers. *)
Definition uintBitLength (t : SszType) : option Z :=
  match t with UintNum64 => Some 64 | stringType => None end.

Definition inUintRange (t : SszType) (x : JsNumber) : bool :=
  match uintBitLength t, x with
  | Some bits, Finite n O => (0 <=? n) && (n <? 2 ^ bits)
  | _, _ => false
  end.

(** ** Key deletion: [Api.deleteKeys] (routes.ts, lines 142-168)

    The file declares the signature and documents the contract; the
    implementation lives in the validator client. *)

Module Keymanager.

(** A key the keymanager knows: whether it is still able to sign, and
    its slashing-protection record. *)
Record KeyEntry := mkKeyEntry {
  active : bool;
  record : SlashingProtectionData
}.

(** The response: one status per requested pubkey, and the interchange
    document, seen as the finite map from pubkey to its record. *)
Record DeleteKeysResponse := mkResponse {
  data : list (ResponseStatus DeletionStatus.t);
  slashingProtection : gmap string SlashingProtectionData
}.

Definition statuses (r : DeleteKeysResponse) : list DeletionStatus.t :=
  map status (data r).

Section DeleteKeys.

(** Step (1) of the contract, disabling further signing by a key, can
    fail at the collaborator; [disableSigning pk] tells whether it
    succeeds for [pk]. *)
Variable disableSigning : PubkeyHex -> bool.

(** Modelled from the spec: the per-key transaction of [deleteKeys]
    (section 4.4).  An unknown key is [not_found] and yields no record;
    a known inactive key is [not_active] and its record is returned; an
    active key is first disabled, which yields [error] on failure, and
    is then marked inactive and reported [deleted] with its record,
    which stays in the store. *)
Definition deleteKey (store : gmap string KeyEntry) (pubkey : PubkeyHex)
  : gmap string KeyEntry * DeletionStatus.t * option SlashingProtectionData :=
  match store !! pubkey with
  | None => (store, DeletionStatus.not_found, None)
  | Some e =>
      if active e then
        if disableSigning pubkey then
          (<[pubkey := mkKeyEntry false (record e)]> store,
           DeletionStatus.deleted, Some (record e))
        else (store, DeletionStatus.error, None)
      else (store, DeletionStatus.not_active, Some (record e))
  end.

(** Modelled from the spec: [deleteKeys] runs the per-key transaction
    on the requested pubkeys in order, reports one status per pubkey in
    the same order, and returns the records fetched. *)
Fixpoint deleteKeys (store : gmap string KeyEntry) (pubkeysHex : list PubkeyHex)
  : gmap string KeyEntry * DeleteKeysResponse :=
  match pubkeysHex with
  | [] => (store, mkResponse [] ∅)
  | pubkey :: rest =>
      let '(store1, st, fetched) := deleteKey store pubkey in
      let '(store2, resp) := deleteKeys store1 rest in
      (store2,
       mkResponse
         (mkResponseStatus st None :: data resp)
         (match fetched with
          | Some r => <[pubkey := r]> (slashingProtection resp)
          | None => slashingProtection resp
          end))
  end.

(** A sequence of delete requests, served one after the other. *)
Fixpoint deleteKeysSeq (store : gmap string KeyEntry) (requests : list (list PubkeyHex))
  : gmap string KeyEntry :=
  match requests with
  | [] => store
  | pubkeysHex :: rest => deleteKeysSeq (fst (deleteKeys store pubkeysHex)) rest
  end.

End DeleteKeys.

End Keymanager.

(** ** Statements about the route table *)

(** The routes answering to a method and a path. *)
Definition dispatch (m : HttpMethod) (path : string) : list string :=
  map fst (List.filter (fun e => bool_decide (dispatchKey e = (m, path))) routesData).

Definition routesAt (path : string) : list string :=
  map fst (List.filter (fun e => String.eqb (url (snd e)) path) routesData).

(** The statement that three routes override to 202 and three to 204, every
    other route keeping the default. *)
Definition threeOverridesEach : Prop :=
  length (overridesTo 202) = 3%nat
  /\ In "setFeeRecipient" (overridesTo 202) /\ In "setGasLimit" (overridesTo 202)
  /\ length (overridesTo 204) = 3%nat
  /\ In "deleteFeeRecipient" (overridesTo 204) /\ In "deleteGasLimit" (overridesTo 204).

(** ** Statements about the codec tables *)

Definition returnTypeOf (m : Api.method) : option ReturnType :=
  lookupKey (Api.name m) getReturnTypes.

(** Whether the path template of a route has the placeholder. *)
Definition pathParam (name : string) (m : Api.method) : option bool :=
  (fun r => hasPlaceholder name (url r)) <$> routeOf (Api.name m) routesData.

Definition pubkeyParam : TsType := TObject [required "pubkey" TString].

(** ** Statements about key deletion *)

(** The record [deleteKey] fetches for a pubkey, if any: that of a known
    key which is inactive or can be disabled. *)
Definition fetchable (disableSigning : PubkeyHex -> bool)
    (store : gmap string Keymanager.KeyEntry) (pubkey : PubkeyHex)
  : option SlashingProtectionData :=
  match store !! pubkey with
  | Some e =>
      if negb (Keymanager.active e) || disableSigning pubkey
      then Some (Keymanager.record e) else None
  | None => None
  end.

(** The status of a pubkey that is requested after the pubkeys [earlier] of
    the same request. *)
Definition statusAfter (disableSigning : PubkeyHex -> bool)
    (store : gmap string Keymanager.KeyEntry) (earlier : list PubkeyHex)
    (pubkey : PubkeyHex) : DeletionStatus.t :=
  match store !! pubkey with
  | None => DeletionStatus.not_found
  | Some e =>
      if Keymanager.active e then
        if disableSigning pubkey then
          if bool_decide (pubkey ∈ earlier) then DeletionStatus.not_active
          else DeletionStatus.deleted
        else DeletionStatus.error
      else DeletionStatus.not_active
  end.

(** ** Statements about the validator *)

(** The three conditions under which the validator rejects its input. *)
Definition gasLimitRejected (input : GasLimitInput) : bool :=
  String.eqb (trim (template input)) EmptyString
  || isNaN (Number input)
  || strictEq (Number input) (ofZ 0).

Definition isUnsignedInteger (x : JsNumber) : bool :=
  match x with Finite n O => 0 <=? n | _ => false end.

(** [Number.isSafeInteger], on integers. *)
Definition isSafeInteger (n : Z) : bool := Z.abs n <=? 9007199254740991.

(** The statement that every input that is not rejected yields an unsigned
    integer. *)
Definition acceptsOnlyUnsignedIntegers : Prop :=
  forall input : GasLimitInput,
    gasLimitRejected input = false ->
    exists g, parseGasLimit input = Return g /\ isUnsignedInteger g = true.

Fixpoint allChars (P : ascii -> bool) (s : string) : bool :=
  match s with
  | EmptyString => true
  | String c r => P c && allChars P r
  end.

(** The statement that every serializer round-trips at every wire request
    and at every argument tuple. *)
Definition allSerializersRoundTrip : Prop :=
  (forall (m : Api.method) (w : Req m), wireRoundTrip (getReqSerializers m) w)
  /\ (forall (m : Api.method) (a : Args m), argsRoundTrip (getReqSerializers m) a).

Definition noWhiteSpace (s : string) : bool :=
  allChars (fun c => negb (isWhiteSpace c)) s.

(** The representation invariant of [Finite]: an integer, or a last
    decimal that is not zero.  Every number the reader produces has it. *)
Definition canonical (x : JsNumber) : bool :=
  match x with
  | Finite _ O => true
  | Finite n (S _) => negb (n mod 10 =? 0)
  | _ => true
  end.

(** A string that does not go on with a digit. *)
Definition startsNonDigit (s : string) : bool :=
  match s with
  | EmptyString => true
  | String c _ => negb (isDigit c)
  end.

(** The exponent suffix of the printer. *)
Definition printedExponent (e : Z) : string :=
  (if e <? 0 then "e-" else "e+") ++ digitsOf (Z.abs e).

(** The fraction suffix of the printer: nothing, or a point and digits. *)
Definition printedFraction (fp : string) : string :=
  match fp with EmptyString => EmptyString | _ => String "." fp end.

(** ** Statements about the further properties *)

(** The error messages of the validator. *)
Definition gasLimitErrors : list string :=
  [ "Not valid Gas Limit";
    "Gas Limit is not valid gasLimit=NaN";
    "Gas Limit is not valid gasLimit=0" ].


(** The schema a request type calls for: its path parameters as required
    strings, and an object body if it has a body. *)
Definition schemaFor (t : TsType) : SchemaDef :=
  mkSchema
    (match paramsOf t with
     | Some (TObject fields) => map (fun f => (fieldName f, SchemaStringRequired)) fields
     | _ => []
     end)
    (match bodyOf t with Some _ => Some SchemaObject | None => None end).

(** The HTTP method the verb of an operation name stands for. *)
Definition verbMethod (name : string) : HttpMethod :=
  if isPrefix "delete" name then DELETE
  else if isPrefix "import" name || isPrefix "set" name then POST
  else GET.

(** * Properties *)

(** ** Status taxonomy *)

(** C6. The status taxonomy is four closed enumerations: every value of
    each type is one of its listed members, and the members carry exactly
    the wire strings imported/duplicate/error (local import),
    deleted/not_active/not_found/error (local delete),
    imported/duplicate/error (remote import) and deleted/not_found/error
    (remote delete), without repetition. *)
Theorem status_taxonomy_closed :
  ((forall s, In s ImportStatus.members)
   /\ map ImportStatus.value ImportStatus.members = ["imported"; "duplicate"; "error"])
  /\ ((forall s, In s DeletionStatus.members)
      /\ map DeletionStatus.value DeletionStatus.members
         = ["deleted"; "not_active"; "not_found"; "error"])
  /\ ((forall s, In s ImportRemoteKeyStatus.members)
      /\ map ImportRemoteKeyStatus.value ImportRemoteKeyStatus.members
         = ["imported"; "duplicate"; "error"])
  /\ ((forall s, In s DeleteRemoteKeyStatus.members)
      /\ map DeleteRemoteKeyStatus.value DeleteRemoteKeyStatus.members
         = ["deleted"; "not_found"; "error"])
  /\ NoDup (map ImportStatus.value ImportStatus.members)
  /\ NoDup (map DeletionStatus.value DeletionStatus.members)
  /\ NoDup (map ImportRemoteKeyStatus.value ImportRemoteKeyStatus.members)
  /\ NoDup (map DeleteRemoteKeyStatus.value DeleteRemoteKeyStatus.members).
Proof.
  repeat split;
    try (intros []; simpl; tauto);
    apply (bool_decide_unpack _); vm_compute; exact I.
Qed.

(** ** Route table *)

Lemma methods_complete (m : Api.method) : In m Api.methods.
Proof. destruct m; simpl; tauto. Qed.

(** C4, as stated, fails: the table has two overrides to 202 and two to
    204, not three of each. *)
Lemma three_overrides_each_fails : ~ threeOverridesEach.
Proof. intros [H _]. vm_compute in H. discriminate H. Qed.

(** C4, amended. Exactly two routes override the success code to 202
    (setFeeRecipient and setGasLimit), exactly two override it to 204
    (deleteFeeRecipient and deleteGasLimit), and the eight remaining routes
    declare no override and so answer with the default 200. *)
Theorem status_overrides :
  overridesTo 202 = ["setFeeRecipient"; "setGasLimit"]
  /\ overridesTo 204 = ["deleteFeeRecipient"; "deleteGasLimit"]
  /\ map fst (List.filter (fun e => bool_decide (statusOk (snd e) = None)) routesData)
     = [ "listKeys"; "importKeystores"; "deleteKeys";
         "listRemoteKeys"; "importRemoteKeys"; "deleteRemoteKeys";
         "listFeeRecipient"; "getGasLimit" ]
  /\ map (fun e => successCode (snd e)) routesData
     = [200; 200; 200; 200; 200; 200; 200; 202; 204; 200; 202; 204].
Proof. repeat split; vm_compute; reflexivity. Qed.

(** C8. The route table and the method set of [Api] are in one-to-one
    correspondence: the keys of [routesData] are the names of the [Api]
    methods, each method once (so every method has exactly one entry), and
    distinct methods have distinct names (so every entry belongs to exactly
    one method). *)
Theorem routes_one_to_one :
  map fst routesData = map Api.name Api.methods
  /\ (forall m : Api.method, In m Api.methods)
  /\ NoDup Api.methods
  /\ NoDup (map Api.name Api.methods)
  /\ (forall m : Api.method, length (routesNamed (Api.name m)) = 1%nat)
  /\ (forall m : Api.method, is_Some (routeOf (Api.name m) routesData)).
Proof.
  split; [reflexivity |].
  split; [exact methods_complete |].
  split; [apply (bool_decide_unpack _); vm_compute; exact I |].
  split; [apply (bool_decide_unpack _); vm_compute; exact I |].
  split; intros []; vm_compute; eauto.
Qed.

(** C10. The twelve routes have pairwise distinct (method, url) pairs,
    although urls are shared: the three keystore operations share
    /eth/v1/keystores and the three remote-key operations share
    /eth/v1/remotekeys; dispatching on the method and path of any route
    finds that route alone. *)
Theorem dispatch_keys_distinct :
  length routesData = 12%nat
  /\ NoDup (map dispatchKey routesData)
  /\ routesAt "/eth/v1/keystores" = ["listKeys"; "importKeystores"; "deleteKeys"]
  /\ routesAt "/eth/v1/remotekeys"
     = ["listRemoteKeys"; "importRemoteKeys"; "deleteRemoteKeys"]
  /\ map (fun e => dispatch (method (snd e)) (url (snd e))) routesData
     = map (fun e => [fst e]) routesData.
Proof.
  split; [reflexivity |].
  split; [apply (bool_decide_unpack _); vm_compute; exact I |].
  repeat split; vm_compute; reflexivity.
Qed.

(** ** Codec tables *)

(** C7. Among the return types, getGasLimit alone is a typed container
    in eth2 case, with the fields pubkey (string) and gasLimit (UintNum64,
    the unsigned integers below 2^64) in this order; every other entry is
    plain JSON in snake case.  The four operations that return nothing
    (setFeeRecipient, deleteFeeRecipient, setGasLimit, deleteGasLimit) have
    no entry. *)
Theorem return_types_gas_limit_exception :
  (forall m : Api.method,
     returnTypeOf m =
       match m with
       | Api.getGasLimit =>
           Some (ContainerData
                   (mkContainerType [("pubkey", stringType); ("gasLimit", UintNum64)] eth2))
       | Api.setFeeRecipient | Api.deleteFeeRecipient
       | Api.setGasLimit | Api.deleteGasLimit => None
       | _ => Some (jsonType snake)
       end)
  /\ map fst getReturnTypes
     = [ "listKeys"; "importKeystores"; "deleteKeys";
         "listRemoteKeys"; "importRemoteKeys"; "deleteRemoteKeys";
         "listFeeRecipient"; "getGasLimit" ]
  /\ (forall x : JsNumber,
        inUintRange UintNum64 x =
          match x with
          | Finite n O => (0 <=? n) && (n <? 18446744073709551616)
          | _ => false
          end)
  /\ (forall x : JsNumber, inUintRange stringType x = false).
Proof.
  split; [intros []; reflexivity |].
  split; [reflexivity |].
  split; intros [| b | n [| d]]; reflexivity.
Qed.

(** C9. The wire request shapes: import-keystores is a POST with body
    keystores: string[], passwords: string[], slashing_protection?: string;
    delete-keys a DELETE with body pubkeys: string[]; import-remote-keys a
    POST with body remote_keys: (pubkey, url)[]; delete-remote-keys a DELETE
    with body pubkeys: string[]; the six fee-recipient and gas-limit routes
    take pubkey as a path parameter, present as a placeholder in their url,
    and the two set operations carry the bodies ethaddress: string and
    gas_limit: string; the two list operations carry nothing. *)
Theorem wire_request_shapes :
  wireShape Api.importKeystores
  = Some (POST, None,
          Some (TObject [ required "keystores" (TArray TString);
                          required "passwords" (TArray TString);
                          optional "slashing_protection" TString ]))
  /\ wireShape Api.deleteKeys
     = Some (DELETE, None, Some (TObject [required "pubkeys" (TArray TString)]))
  /\ wireShape Api.importRemoteKeys
     = Some (POST, None,
             Some (TObject [required "remote_keys"
                     (TArray (TObject [required "pubkey" TString;
                                       required "url" TString]))]))
  /\ wireShape Api.deleteRemoteKeys
     = Some (DELETE, None, Some (TObject [required "pubkeys" (TArray TString)]))
  /\ wireShape Api.listFeeRecipient = Some (GET, Some pubkeyParam, None)
  /\ wireShape Api.setFeeRecipient
     = Some (POST, Some pubkeyParam, Some (TObject [required "ethaddress" TString]))
  /\ wireShape Api.deleteFeeRecipient = Some (DELETE, Some pubkeyParam, None)
  /\ wireShape Api.getGasLimit = Some (GET, Some pubkeyParam, None)
  /\ wireShape Api.setGasLimit
     = Some (POST, Some pubkeyParam, Some (TObject [required "gas_limit" TString]))
  /\ wireShape Api.deleteGasLimit = Some (DELETE, Some pubkeyParam, None)
  /\ wireShape Api.listKeys = Some (GET, None, None)
  /\ wireShape Api.listRemoteKeys = Some (GET, None, None)
  /\ map (pathParam "pubkey") Api.methods
     = [ Some false; Some false; Some false; Some false; Some false; Some false;
         Some true; Some true; Some true; Some true; Some true; Some true ].
Proof. repeat split; vm_compute; reflexivity. Qed.

(** ** Key deletion *)

Section DeleteKeysFacts.

Import Keymanager.

Variable disableSigning : PubkeyHex -> bool.

Lemma deleteKey_store (store : gmap string KeyEntry) (p pk : PubkeyHex) :
  (Keymanager.deleteKey disableSigning store p).1.1 !! pk =
    match store !! pk with
    | Some e =>
        Some (mkKeyEntry (active e && negb (bool_decide (pk = p) && disableSigning pk))
                (record e))
    | None => None
    end.
Proof.
  unfold Keymanager.deleteKey.
  destruct (decide (pk = p)) as [-> | Hne].
  - rewrite bool_decide_eq_true_2 by done.
    destruct (store !! p) as [[a r] |] eqn:E; simpl; [| by rewrite E].
    destruct a; simpl; [destruct (disableSigning p); simpl |].
    + by rewrite lookup_insert_eq.
    + by rewrite E.
    + by rewrite E.
  - rewrite bool_decide_eq_false_2 by done. simpl.
    assert (Hsame : (store !! pk) = match store !! pk with
                                    | Some e => Some (mkKeyEntry (active e && true) (record e))
                                    | None => None
                                    end).
    { destruct (store !! pk) as [[a r] |]; simpl; [| done].
      by rewrite andb_true_r. }
    destruct (store !! p) as [[a r] |] eqn:E; simpl; [| exact Hsame].
    destruct a; simpl; [destruct (disableSigning p); simpl |]; try exact Hsame.
    rewrite lookup_insert_ne by done. exact Hsame.
Qed.

Lemma deleteKey_status (store : gmap string KeyEntry) (p : PubkeyHex) :
  (Keymanager.deleteKey disableSigning store p).1.2 = statusAfter disableSigning store [] p.
Proof.
  unfold Keymanager.deleteKey, statusAfter.
  destruct (store !! p) as [[a r] |]; simpl; [| done].
  destruct a; simpl; [| done]. by destruct (disableSigning p).
Qed.

Lemma deleteKey_fetched (store : gmap string KeyEntry) (p : PubkeyHex) :
  (Keymanager.deleteKey disableSigning store p).2 = fetchable disableSigning store p.
Proof.
  unfold Keymanager.deleteKey, fetchable.
  destruct (store !! p) as [[a r] |]; simpl; [| done].
  destruct a; simpl; [| done]. by destruct (disableSigning p).
Qed.

Lemma deleteKey_fetchable (store : gmap string KeyEntry) (p pk : PubkeyHex) :
  fetchable disableSigning (Keymanager.deleteKey disableSigning store p).1.1 pk
  = fetchable disableSigning store pk.
Proof.
  unfold fetchable. rewrite deleteKey_store.
  destruct (store !! pk) as [[a r] |]; simpl; [| done].
  destruct a, (bool_decide (pk = p)), (disableSigning pk); done.
Qed.

Lemma deleteKeys_unfold (store : gmap string KeyEntry) (p : PubkeyHex)
    (rest : list PubkeyHex) :
  let step := Keymanager.deleteKey disableSigning store p in
  let tail := Keymanager.deleteKeys disableSigning step.1.1 rest in
  Keymanager.deleteKeys disableSigning store (p :: rest) =
    (tail.1,
     mkResponse
       (mkResponseStatus step.1.2 None :: data tail.2)
       (match step.2 with
        | Some r => <[p := r]> (slashingProtection tail.2)
        | None => slashingProtection tail.2
        end)).
Proof.
  simpl. destruct (Keymanager.deleteKey disableSigning store p) as [[store1 st] fetched].
  simpl. by destruct (Keymanager.deleteKeys disableSigning store1 rest).
Qed.

(** The store after a request: records are kept, and the keys of the
    request that could be disabled are inactive. *)
Lemma deleteKeys_store (pubkeys : list PubkeyHex) :
  forall (store : gmap string KeyEntry) (pk : PubkeyHex),
    (Keymanager.deleteKeys disableSigning store pubkeys).1 !! pk =
      match store !! pk with
      | Some e =>
          Some (mkKeyEntry
                  (active e && negb (bool_decide (pk ∈ pubkeys) && disableSigning pk))
                  (record e))
      | None => None
      end.
Proof.
  induction pubkeys as [| p rest IH]; intros store pk.
  - rewrite bool_decide_eq_false_2 by apply not_elem_of_nil.
    simpl. destruct (store !! pk) as [[a r] |]; [| done].
    simpl. by rewrite andb_true_r.
  - rewrite deleteKeys_unfold. simpl. rewrite IH, deleteKey_store.
    destruct (store !! pk) as [[a r] |]; simpl; [| done].
    f_equal. f_equal.
    destruct (decide (pk = p)) as [-> | Hne].
    + rewrite (bool_decide_eq_true_2 (p = p)) by done.
      rewrite (bool_decide_eq_true_2 (p ∈ p :: rest)) by apply list_elem_of_here.
      destruct a, (disableSigning p), (bool_decide (p ∈ rest)); done.
    + rewrite (bool_decide_eq_false_2 (pk = p)) by done.
      rewrite (bool_decide_ext (pk ∈ p :: rest) (pk ∈ rest)).
      * simpl. by rewrite andb_true_r.
      * rewrite elem_of_cons. tauto.
Qed.

(** The payload of a response: the fetchable record of each requested
    pubkey, and nothing else. *)
Lemma deleteKeys_payload (pubkeys : list PubkeyHex) :
  forall (store : gmap string KeyEntry) (pk : PubkeyHex),
    slashingProtection (Keymanager.deleteKeys disableSigning store pubkeys).2 !! pk =
      if bool_decide (pk ∈ pubkeys) then fetchable disableSigning store pk else None.
Proof.
  induction pubkeys as [| p rest IH]; intros store pk.
  - rewrite bool_decide_eq_false_2 by apply not_elem_of_nil.
    apply lookup_empty.
  - rewrite deleteKeys_unfold. simpl. rewrite deleteKey_fetched.
    destruct (decide (pk = p)) as [-> | Hne].
    + rewrite (bool_decide_eq_true_2 (p ∈ p :: rest)) by apply list_elem_of_here.
      destruct (fetchable disableSigning store p) as [r |] eqn:F.
      * by rewrite lookup_insert_eq.
      * rewrite IH, deleteKey_fetchable, F. by destruct (bool_decide (p ∈ rest)).
    + rewrite (bool_decide_ext (pk ∈ p :: rest) (pk ∈ rest))
        by (rewrite elem_of_cons; tauto).
      destruct (fetchable disableSigning store p) as [r |].
      * rewrite lookup_insert_ne by done. by rewrite IH, deleteKey_fetchable.
      * by rewrite IH, deleteKey_fetchable.
Qed.

Lemma statusAfter_step (store : gmap string KeyEntry) (p pk : PubkeyHex)
    (earlier : list PubkeyHex) :
  statusAfter disableSigning (Keymanager.deleteKey disableSigning store p).1.1 earlier pk
  = statusAfter disableSigning store (p :: earlier) pk.
Proof.
  unfold statusAfter. rewrite deleteKey_store.
  destruct (store !! pk) as [[a r] |]; simpl; [| done].
  destruct (decide (pk = p)) as [-> | Hne].
  - rewrite (bool_decide_eq_true_2 (p = p)) by done.
    rewrite (bool_decide_eq_true_2 (p ∈ p :: earlier)) by apply list_elem_of_here.
    destruct a, (disableSigning p); done.
  - rewrite (bool_decide_eq_false_2 (pk = p)) by done.
    rewrite (bool_decide_ext (pk ∈ p :: earlier) (pk ∈ earlier))
      by (rewrite elem_of_cons; tauto).
    simpl. by rewrite andb_true_r.
Qed.

(** The statuses of a response, position by position. *)
Lemma deleteKeys_statuses (pubkeys : list PubkeyHex) :
  forall (store : gmap string KeyEntry) (i : nat) (pk : PubkeyHex),
    pubkeys !! i = Some pk ->
    statuses (Keymanager.deleteKeys disableSigning store pubkeys).2 !! i
    = Some (statusAfter disableSigning store (take i pubkeys) pk).
Proof.
  induction pubkeys as [| p rest IH]; intros store i pk Hi; [done |].
  rewrite deleteKeys_unfold. unfold statuses. simpl.
  destruct i as [| i]; simpl in *.
  - injection Hi as ->. by rewrite deleteKey_status.
  - specialize (IH (Keymanager.deleteKey disableSigning store p).1.1 i pk Hi).
    unfold statuses in IH. rewrite IH. by rewrite statusAfter_step.
Qed.

Lemma deleteKeys_length (pubkeys : list PubkeyHex) :
  forall store : gmap string KeyEntry,
    length (data (Keymanager.deleteKeys disableSigning store pubkeys).2) = length pubkeys.
Proof.
  induction pubkeys as [| p rest IH]; intros store; [done |].
  rewrite deleteKeys_unfold. simpl. by rewrite IH.
Qed.

End DeleteKeysFacts.

Lemma deleteKeys_keeps_records (disableSigning : PubkeyHex -> bool)
    (pubkeys : list PubkeyHex) (store : gmap string Keymanager.KeyEntry) (pk : PubkeyHex) :
  Keymanager.record <$> (Keymanager.deleteKeys disableSigning store pubkeys).1 !! pk
  = Keymanager.record <$> store !! pk.
Proof.
  rewrite deleteKeys_store. by destruct (store !! pk) as [[a r] |].
Qed.

Lemma deleteKeysSeq_keeps_records (disableSigning : PubkeyHex -> bool)
    (requests : list (list PubkeyHex)) :
  forall (store : gmap string Keymanager.KeyEntry) (pk : PubkeyHex),
    Keymanager.record <$> Keymanager.deleteKeysSeq disableSigning store requests !! pk
    = Keymanager.record <$> store !! pk.
Proof.
  induction requests as [| pubkeys rest IH]; intros store pk; [done |].
  simpl. rewrite IH. apply deleteKeys_keeps_records.
Qed.

Lemma fetchable_after_request (disableSigning : PubkeyHex -> bool)
    (pubkeys : list PubkeyHex) (store : gmap string Keymanager.KeyEntry) (pk : PubkeyHex) :
  pk ∈ pubkeys ->
  fetchable disableSigning (Keymanager.deleteKeys disableSigning store pubkeys).1 pk
  = fetchable disableSigning store pk.
Proof.
  intros Hin. unfold fetchable. rewrite deleteKeys_store.
  rewrite (bool_decide_eq_true_2 _ Hin).
  destruct (store !! pk) as [[a r] |]; simpl; [| done].
  by destruct a, (disableSigning pk).
Qed.

(** C5. In every deleteKeys response there is one status per requested
    pubkey, and slashing-protection data is present for a requested pubkey
    exactly when its status is deleted or not_active, and absent when it is
    not_found or error; the data present is the stored record of a
    requested key.  Deleting [A; B] with A active and B unknown answers
    [deleted; not_found] with a payload that holds A's record only. *)
Theorem delete_response_slashing_data
    (disableSigning : PubkeyHex -> bool) (store : gmap string Keymanager.KeyEntry) :
  (forall pubkeysHex : list PubkeyHex,
     let resp := (Keymanager.deleteKeys disableSigning store pubkeysHex).2 in
     length (Keymanager.data resp) = length pubkeysHex
     /\ (forall (i : nat) (pk : PubkeyHex),
           pubkeysHex !! i = Some pk ->
           exists s, Keymanager.statuses resp !! i = Some s
             /\ (is_Some (Keymanager.slashingProtection resp !! pk)
                 <-> s = DeletionStatus.deleted \/ s = DeletionStatus.not_active)
             /\ (Keymanager.slashingProtection resp !! pk = None
                 <-> s = DeletionStatus.not_found \/ s = DeletionStatus.error))
     /\ (forall (pk : PubkeyHex) (r : SlashingProtectionData),
           Keymanager.slashingProtection resp !! pk = Some r ->
           pk ∈ pubkeysHex /\ Keymanager.record <$> store !! pk = Some r))
  /\ (forall (A B : PubkeyHex) (e : Keymanager.KeyEntry),
        A <> B ->
        store !! A = Some e -> Keymanager.active e = true -> disableSigning A = true ->
        store !! B = None ->
        let resp := (Keymanager.deleteKeys disableSigning store [A; B]).2 in
        Keymanager.statuses resp = [DeletionStatus.deleted; DeletionStatus.not_found]
        /\ Keymanager.slashingProtection resp = {[ A := Keymanager.record e ]}).
Proof.
  split.
  - intros pubkeysHex resp. subst resp.
    split; [apply deleteKeys_length |]. split.
    + intros i pk Hi.
      eexists. split; [by apply deleteKeys_statuses |].
      rewrite deleteKeys_payload.
      rewrite bool_decide_eq_true_2 by (by eapply list_elem_of_lookup_2).
      unfold fetchable, statusAfter.
      destruct (store !! pk) as [[a r] |]; simpl.
      * destruct a, (disableSigning pk), (bool_decide (pk ∈ take i pubkeysHex));
          simpl; split; split;
          try (intros [? ?]); try (intros [? | ?]); try intros ?;
          try discriminate; eauto.
      * split; split;
          try (intros [? ?]); try (intros [? | ?]); try intros ?;
          try discriminate; eauto.
    + intros pk r. rewrite deleteKeys_payload.
      case_bool_decide as Hin; [| done].
      unfold fetchable. destruct (store !! pk) as [[a r'] |]; simpl; [| done].
      destruct (negb a || disableSigning pk); [| done].
      intros [= ->]. done.
  - intros A B e Hne HA Hact Hds HB resp. subst resp.
    destruct e as [a r]. simpl in Hact. subst a.
    assert (E1 : Keymanager.deleteKey disableSigning store A
                 = (<[A := Keymanager.mkKeyEntry false r]> store,
                    DeletionStatus.deleted, Some r)).
    { unfold Keymanager.deleteKey. rewrite HA. simpl. by rewrite Hds. }
    assert (E2 : Keymanager.deleteKey disableSigning
                   (<[A := Keymanager.mkKeyEntry false r]> store) B
                 = (<[A := Keymanager.mkKeyEntry false r]> store,
                    DeletionStatus.not_found, None)).
    { unfold Keymanager.deleteKey. rewrite lookup_insert_ne by done. by rewrite HB. }
    cbn [Keymanager.deleteKeys]. rewrite E1, E2. simpl.
    split; [reflexivity | apply insert_empty].
Qed.

(** A store with one active key, and a collaborator that can disable any
    key: the scenario, and the payload at the unknown key. *)
Lemma delete_response_slashing_data_witness :
  let store : gmap string Keymanager.KeyEntry :=
    {[ "0xaa" := Keymanager.mkKeyEntry true "record-aa" ]} in
  let resp := (Keymanager.deleteKeys (fun _ => true) store ["0xaa"; "0xbb"]).2 in
  (Keymanager.statuses resp = [DeletionStatus.deleted; DeletionStatus.not_found]
   /\ Keymanager.slashingProtection resp = {[ "0xaa" := "record-aa" ]})
  /\ (exists s, Keymanager.statuses resp !! 1%nat = Some s
        /\ (is_Some (Keymanager.slashingProtection resp !! "0xbb")
            <-> s = DeletionStatus.deleted \/ s = DeletionStatus.not_active)
        /\ (Keymanager.slashingProtection resp !! "0xbb" = None
            <-> s = DeletionStatus.not_found \/ s = DeletionStatus.error)).
Proof.
  intros store resp. split.
  - apply (proj2 (delete_response_slashing_data (fun _ => true) store)
             "0xaa" "0xbb" (Keymanager.mkKeyEntry true "record-aa")).
    + discriminate.
    + reflexivity.
    + reflexivity.
    + reflexivity.
    + reflexivity.
  - apply (proj1 (proj2 (proj1 (delete_response_slashing_data (fun _ => true) store)
                           ["0xaa"; "0xbb"])) 1%nat "0xbb").
    reflexivity.
Defined.

(** C1. Slashing-protection records are retained by deleteKeys, whatever
    the sequence of delete requests.  When a first call reports deleted
    for a pubkey, the same call made again reports not_found or not_active
    for that pubkey at every position, never deleted, and both calls
    return the key's stored record for it; the whole slashing-protection
    payload of the second call is that of the first. *)
Theorem delete_twice_retains_slashing_data
    (disableSigning : PubkeyHex -> bool) (store : gmap string Keymanager.KeyEntry)
    (pubkeysHex : list PubkeyHex) :
  let first := Keymanager.deleteKeys disableSigning store pubkeysHex in
  let second := Keymanager.deleteKeys disableSigning first.1 pubkeysHex in
  (forall (i : nat) (pk : PubkeyHex),
     pubkeysHex !! i = Some pk ->
     Keymanager.statuses first.2 !! i = Some DeletionStatus.deleted ->
     (forall j : nat,
        pubkeysHex !! j = Some pk ->
        exists s, Keymanager.statuses second.2 !! j = Some s
          /\ (s = DeletionStatus.not_found \/ s = DeletionStatus.not_active)
          /\ s <> DeletionStatus.deleted)
     /\ (exists r : SlashingProtectionData,
           Keymanager.record <$> store !! pk = Some r
           /\ Keymanager.slashingProtection first.2 !! pk = Some r
           /\ Keymanager.slashingProtection second.2 !! pk = Some r))
  /\ Keymanager.slashingProtection second.2 = Keymanager.slashingProtection first.2
  /\ (forall (requests : list (list PubkeyHex)) (pk : PubkeyHex),
        Keymanager.record <$> Keymanager.deleteKeysSeq disableSigning store requests !! pk
        = Keymanager.record <$> store !! pk).
Proof.
  intros first second. subst first second.
  split; [| split].
  - intros i pk Hi Hdel.
    assert (Hin : pk ∈ pubkeysHex) by (by eapply list_elem_of_lookup_2).
    rewrite (deleteKeys_statuses _ _ _ _ _ Hi) in Hdel.
    injection Hdel as Hdel. unfold statusAfter in Hdel.
    destruct (store !! pk) as [[a r] |] eqn:E; [| discriminate].
    simpl in Hdel.
    destruct a; [| discriminate].
    destruct (disableSigning pk) eqn:Hds; [| discriminate].
    split.
    + intros j Hj. eexists. split; [by apply deleteKeys_statuses |].
      unfold statusAfter. rewrite deleteKeys_store, E. simpl.
      rewrite (bool_decide_eq_true_2 _ Hin), Hds. simpl.
      split; [by right | discriminate].
    + exists r. split; [done |].
      rewrite !deleteKeys_payload, (bool_decide_eq_true_2 _ Hin).
      rewrite fetchable_after_request by done.
      unfold fetchable. rewrite E. simpl. by rewrite Hds.
  - apply map_eq. intros pk. rewrite !deleteKeys_payload.
    case_bool_decide as Hin; [| done].
    by apply fetchable_after_request.
  - intros requests pk. apply deleteKeysSeq_keeps_records.
Qed.

(** Deleting an active key twice, next to a key that was never known. *)
Lemma delete_twice_retains_slashing_data_witness :
  let store : gmap string Keymanager.KeyEntry :=
    {[ "0xaa" := Keymanager.mkKeyEntry true "record-aa" ]} in
  let first := Keymanager.deleteKeys (fun _ => true) store ["0xaa"; "0xbb"] in
  let second := Keymanager.deleteKeys (fun _ => true) first.1 ["0xaa"; "0xbb"] in
  Keymanager.statuses first.2 !! 0%nat = Some DeletionStatus.deleted
  /\ (exists s, Keymanager.statuses second.2 !! 0%nat = Some s
        /\ (s = DeletionStatus.not_found \/ s = DeletionStatus.not_active)
        /\ s <> DeletionStatus.deleted)
  /\ (exists r : SlashingProtectionData,
        Keymanager.record <$> store !! "0xaa" = Some r
        /\ Keymanager.slashingProtection first.2 !! "0xaa" = Some r
        /\ Keymanager.slashingProtection second.2 !! "0xaa" = Some r).
Proof.
  intros store first second.
  assert (Hdel : Keymanager.statuses first.2 !! 0%nat = Some DeletionStatus.deleted)
    by reflexivity.
  split; [exact Hdel |].
  destruct (proj1 (delete_twice_retains_slashing_data (fun _ => true) store ["0xaa"; "0xbb"])
              0%nat "0xaa" eq_refl Hdel) as [Hstatus Hrecord].
  split; [exact (Hstatus 0%nat eq_refl) | exact Hrecord].
Defined.

(** ** Numbers and their strings *)

(** *** Characters and digits *)

Lemma charCode_digitChar (d : Z) :
  0 <= d < 10 -> charCode (digitChar d) = 48 + d.
Proof.
  intros Hd. unfold charCode, digitChar.
  rewrite N_ascii_embedding; lia.
Qed.

Lemma isDigit_digitChar (d : Z) : 0 <= d < 10 -> isDigit (digitChar d) = true.
Proof.
  intros Hd. unfold isDigit. rewrite charCode_digitChar by done.
  apply andb_true_intro. split; lia.
Qed.

Lemma digitIn_digitChar (d : Z) : 0 <= d < 10 -> digitIn 10 (digitChar d) = Some d.
Proof.
  intros Hd. unfold digitIn, hexValue. rewrite charCode_digitChar by done.
  replace ((48 <=? 48 + d) && (48 + d <=? 57)) with true
    by (symmetry; apply andb_true_intro; split; lia).
  replace (48 + d - 48 <? 10) with true by (symmetry; lia).
  f_equal. lia.
Qed.

Lemma isDigit_not_whitespace (c : ascii) : isDigit c = true -> isWhiteSpace c = false.
Proof.
  unfold isDigit, isWhiteSpace. intros H.
  apply andb_prop in H as [H1 H2].
  apply orb_false_intro; [apply orb_false_intro |]; [apply andb_false_intro2 | |]; lia.
Qed.

(** *** Strings *)

Lemma append_cons (c : ascii) (r s : string) : String c r ++ s = String c (r ++ s).
Proof. reflexivity. Qed.

Lemma append_nil (s : string) : EmptyString ++ s = s.
Proof. reflexivity. Qed.

Lemma append_empty_r (s : string) : s ++ EmptyString = s.
Proof. induction s as [| c r IH]; [done | by rewrite append_cons, IH]. Qed.

Lemma append_assoc (a b c : string) : (a ++ b) ++ c = a ++ (b ++ c).
Proof. induction a as [| x r IH]; [done | by rewrite !append_cons, IH]. Qed.

Lemma strLen_append (a b : string) : strLen (a ++ b) = strLen a + strLen b.
Proof.
  unfold strLen. induction a as [| x r IH]; [rewrite append_nil; simpl; lia |].
  rewrite append_cons. cbn [String.length]. rewrite !Nat2Z.inj_succ. lia.
Qed.

Lemma allChars_append (P : ascii -> bool) (a b : string) :
  allChars P (a ++ b) = allChars P a && allChars P b.
Proof.
  induction a as [| x r IH]; [done |].
  rewrite append_cons. cbn [allChars]. by rewrite IH, andb_assoc.
Qed.

Lemma digitsValue_append (radix : Z) (a b : string) :
  forall acc,
    digitsValue radix acc (a ++ b) =
      match digitsValue radix acc a with
      | Some v => digitsValue radix v b
      | None => None
      end.
Proof.
  induction a as [| x r IH]; intros acc; [done |].
  rewrite append_cons. cbn [digitsValue].
  destruct (digitIn radix x); [apply IH | done].
Qed.

(** *** The digit printer *)

Lemma digitsFrom_app (fuel : nat) :
  forall n acc, digitsFrom fuel n acc = digitsFrom fuel n EmptyString ++ acc.
Proof.
  induction fuel as [| fuel IH]; intros n acc; simpl; [done |].
  destruct (n <? 10); [done |].
  rewrite (IH _ (String _ acc)), (IH _ (String _ EmptyString)).
  by rewrite append_assoc.
Qed.

Lemma digitsFrom_S (fuel : nat) (n : Z) (acc : string) :
  digitsFrom (S fuel) n acc =
    if n <? 10 then String (digitChar (n mod 10)) acc
    else digitsFrom fuel (n / 10) (String (digitChar (n mod 10)) acc).
Proof. reflexivity. Qed.

Lemma digitsFrom_spec (fuel : nat) :
  forall n, 0 <= n < 2 ^ Z.of_nat (S fuel) ->
    let ds := digitsFrom (S fuel) n EmptyString in
    allChars isDigit ds = true
    /\ 1 <= strLen ds
    /\ (forall acc, digitsValue 10 acc ds = Some (acc * 10 ^ strLen ds + n))
    /\ (0 < n -> 10 ^ (strLen ds - 1) <= n).
Proof.
  induction fuel as [| fuel IH]; intros n Hn ds; subst ds.
  - assert (Hlt : n < 10) by (change (2 ^ Z.of_nat 1) with 2 in Hn; lia).
    rewrite digitsFrom_S. replace (n <? 10) with true by (symmetry; lia).
    rewrite Z.mod_small by lia.
    cbn [allChars digitsValue]. rewrite isDigit_digitChar, digitIn_digitChar by lia.
    repeat split; try done.
    + intros acc. f_equal. change (strLen (String (digitChar n) EmptyString)) with 1.
      rewrite Z.pow_1_r. lia.
    + intros Hpos. change (strLen (String (digitChar n) EmptyString) - 1) with 0.
      rewrite Z.pow_0_r. lia.
  - rewrite digitsFrom_S. destruct (n <? 10) eqn:Hlt.
    + apply Z.ltb_lt in Hlt. rewrite Z.mod_small by lia.
      cbn [allChars digitsValue]. rewrite isDigit_digitChar, digitIn_digitChar by lia.
      repeat split; try done.
      * intros acc. f_equal. change (strLen (String (digitChar n) EmptyString)) with 1.
      rewrite Z.pow_1_r. lia.
      * intros Hpos. change (strLen (String (digitChar n) EmptyString) - 1) with 0.
      rewrite Z.pow_0_r. lia.
    + apply Z.ltb_ge in Hlt.
      assert (Hq : 0 <= n / 10 < 2 ^ Z.of_nat (S fuel)).
      { split; [apply Z.div_pos; lia |].
        apply Z.div_lt_upper_bound; [lia |].
        rewrite (Nat2Z.inj_succ (S fuel)), Z.pow_succ_r in Hn by lia. lia. }
      destruct (IH (n / 10) Hq) as (Hall & Hlen & Hval & Hmag).
      rewrite digitsFrom_app.
      set (ds := digitsFrom (S fuel) (n / 10) EmptyString) in *.
      assert (Hd : 0 <= n mod 10 < 10) by (apply Z.mod_pos_bound; lia).
      rewrite allChars_append, strLen_append.
      change (strLen (String (digitChar (n mod 10)) EmptyString)) with 1.
      split; [| split; [| split]].
      * rewrite Hall. cbn [allChars]. by rewrite isDigit_digitChar.
      * lia.
      * intros acc. rewrite digitsValue_append, Hval. cbn [digitsValue].
        rewrite digitIn_digitChar by done. f_equal.
        rewrite Z.pow_add_r by lia.
        pose proof (Z.div_mod n 10 ltac:(lia)). lia.
      * intros _. replace (strLen ds + 1 - 1) with (Z.succ (strLen ds - 1)) by lia.
        rewrite Z.pow_succ_r by lia.
        assert (0 < n / 10) by (apply Z.div_str_pos; lia).
        specialize (Hmag ltac:(lia)).
        pose proof (Z.div_mod n 10 ltac:(lia)). lia.
Qed.

Lemma digitsOf_spec (n : Z) :
  0 <= n ->
  allChars isDigit (digitsOf n) = true
  /\ 1 <= strLen (digitsOf n)
  /\ (forall acc, digitsValue 10 acc (digitsOf n) = Some (acc * 10 ^ strLen (digitsOf n) + n))
  /\ (0 < n -> 10 ^ (strLen (digitsOf n) - 1) <= n).
Proof.
  intros Hn. apply digitsFrom_spec. split; [done |].
  rewrite Nat2Z.inj_succ, Z2Nat.id by apply Z.log2_nonneg.
  destruct (Z.eq_dec n 0) as [-> | Hne]; [done |].
  apply Z.log2_spec. lia.
Qed.

Lemma digitsOf_value (n : Z) : 0 <= n -> digitsValue 10 0 (digitsOf n) = Some n.
Proof.
  intros Hn. destruct (digitsOf_spec n Hn) as (_ & _ & Hval & _).
  rewrite Hval. by rewrite Z.mul_0_l.
Qed.

Lemma digitsOf_length (n : Z) : 0 < n < 10 ^ 21 -> strLen (digitsOf n) <= 21.
Proof.
  intros [Hpos Hlt]. destruct (digitsOf_spec n ltac:(lia)) as (_ & Hlen & _ & Hmag).
  specialize (Hmag Hpos).
  destruct (Z_le_gt_dec (strLen (digitsOf n)) 21) as [| Hgt]; [done |].
  assert (10 ^ 21 <= 10 ^ (strLen (digitsOf n) - 1))
    by (apply Z.pow_le_mono_r; lia).
  lia.
Qed.

(** *** Trimming and scanning strings of digits *)

Lemma allChars_impl (P Q : ascii -> bool) (s : string) :
  (forall c, P c = true -> Q c = true) -> allChars P s = true -> allChars Q s = true.
Proof.
  intros HPQ. induction s as [| c r IH]; [done |].
  cbn [allChars]. intros [Hc Hr]%andb_prop.
  by rewrite (HPQ c Hc), IH.
Qed.

Lemma digits_noWhiteSpace (s : string) : allChars isDigit s = true -> noWhiteSpace s = true.
Proof.
  apply allChars_impl. intros c Hc. by rewrite isDigit_not_whitespace.
Qed.

Lemma trimStart_id (s : string) : noWhiteSpace s = true -> trimStart s = s.
Proof.
  destruct s as [| c r]; [done |]. unfold noWhiteSpace. cbn [allChars trimStart].
  intros [Hc _]%andb_prop. by destruct (isWhiteSpace c).
Qed.

Lemma trimEnd_id (s : string) : noWhiteSpace s = true -> trimEnd s = s.
Proof.
  unfold noWhiteSpace. induction s as [| c r IH]; [done |].
  cbn [allChars trimEnd]. intros [Hc Hr]%andb_prop.
  rewrite (IH Hr). destruct r; [| done]. by destruct (isWhiteSpace c).
Qed.

Lemma trim_id (s : string) : noWhiteSpace s = true -> trim s = s.
Proof.
  intros H. unfold trim. rewrite trimStart_id by done. by apply trimEnd_id.
Qed.

Lemma spanDigits_all (s : string) :
  allChars isDigit s = true -> spanDigits s = (s, EmptyString).
Proof.
  induction s as [| c r IH]; [done |].
  cbn [allChars spanDigits]. intros [Hc Hr]%andb_prop.
  by rewrite Hc, (IH Hr).
Qed.

Lemma nonDecimalLiteral_digits (s : string) :
  allChars isDigit s = true -> nonDecimalLiteral s = None.
Proof.
  destruct s as [| c1 [| c2 r]]; [done | |].
  - intros _. by destruct c1 as [[] [] [] [] [] [] [] []].
  - intros H. cbn [allChars] in H.
    apply andb_prop in H as [_ [H2 _]%andb_prop].
    destruct c1 as [[] [] [] [] [] [] [] []]; try reflexivity.
    destruct c2 as [[] [] [] [] [] [] [] []]; try reflexivity; discriminate H2.
Qed.

Lemma decimalLiteral_digit (c : ascii) (r : string) :
  isDigit c = true -> decimalLiteral (String c r) = unsignedDecimalLiteral (String c r).
Proof.
  intros H. destruct c as [[] [] [] [] [] [] [] []]; try reflexivity; discriminate H.
Qed.

Lemma unsignedDecimalLiteral_digits (s : string) (v : Z) :
  allChars isDigit s = true -> 1 <= strLen s -> digitsValue 10 0 s = Some v ->
  unsignedDecimalLiteral s = ofZ v.
Proof.
  intros Hall Hlen Hval. unfold unsignedDecimalLiteral.
  destruct s as [| c r]; [unfold strLen in Hlen; simpl in Hlen; lia |].
  assert (Hc : isDigit c = true) by (cbn [allChars] in Hall; by apply andb_prop in Hall as [? _]).
  assert (Hinf : String.eqb (String c r) "Infinity" = false).
  { cbn [String.eqb]. destruct (Ascii.eqb_spec c "I") as [-> | _]; [discriminate Hc | done]. }
  rewrite Hinf, spanDigits_all by done.
  cbn [String.eqb andb]. rewrite append_empty_r, Hval.
  unfold exponentPart, scaled, ofZ. change (0 - strLen EmptyString) with 0.
  change (0 <=? 0) with true. cbn iota. f_equal. lia.
Qed.

(** *** Printing integers *)

Lemma stripTrailingZeros_zeros (s : string) :
  exists k : nat,
    s = stripTrailingZeros s ++ zeros k
    /\ String.length s = (String.length (stripTrailingZeros s) + k)%nat.
Proof.
  induction s as [| c r (k & Hs & Hlen)]; [by exists O |].
  cbn [stripTrailingZeros].
  destruct (stripTrailingZeros r) as [| c' r'] eqn:E.
  - rewrite append_nil in Hs. case_bool_decide as Hc.
    + exists (S k). subst c. rewrite append_nil. cbn [zeros String.length] in *.
      split; [by rewrite <- Hs | lia].
    + exists k. rewrite append_cons, append_nil. cbn [String.length] in *.
      split; [by rewrite <- Hs | lia].
  - exists k. rewrite append_cons. cbn [String.length] in *.
    split; [by rewrite <- Hs | lia].
Qed.

Lemma positiveToString_integer (n : Z) :
  0 < n < 10 ^ 21 -> positiveToString n 0 = digitsOf n.
Proof.
  intros Hn. pose proof (digitsOf_length n Hn) as Hlen.
  unfold positiveToString.
  destruct (stripTrailingZeros_zeros (digitsOf n)) as (k & Hs & Hk).
  set (ds := digitsOf n) in *. set (s := stripTrailingZeros ds) in *.
  assert (Hdiff : strLen ds - Z.of_nat 0 - strLen s = Z.of_nat k)
    by (unfold strLen; lia).
  clearbody s. clearbody ds.
  assert (Hfirst : (strLen s <=? strLen ds - Z.of_nat 0)
                   && (strLen ds - Z.of_nat 0 <=? 21) = true)
    by (apply andb_true_intro; split; apply Z.leb_le; lia).
  by rewrite Hfirst, Hdiff, Nat2Z.id.
Qed.

Lemma toString_integer (n : Z) :
  0 < n < 10 ^ 21 -> toString (ofZ n) = digitsOf n.
Proof.
  intros Hn. unfold toString, ofZ.
  replace (n =? 0) with false by (symmetry; lia).
  replace (n <? 0) with false by (symmetry; lia).
  by apply positiveToString_integer.
Qed.

Lemma toString_negative_integer (n : Z) :
  0 < n < 10 ^ 21 -> toString (ofZ (- n)) = String "-" (digitsOf n).
Proof.
  intros Hn. unfold toString, ofZ.
  replace (- n =? 0) with false by (symmetry; lia).
  replace (- n <? 0) with true by (symmetry; lia).
  rewrite Z.opp_involutive, positiveToString_integer by done.
  reflexivity.
Qed.

(** *** Pieces of strings *)

Lemma strLen_nonneg (s : string) : 0 <= strLen s.
Proof. unfold strLen. lia. Qed.

Lemma strLen_cons (c : ascii) (r : string) : strLen (String c r) = 1 + strLen r.
Proof. unfold strLen. cbn [String.length]. lia. Qed.

Lemma takeStr_dropStr (n : nat) :
  forall s, takeStr n s ++ dropStr n s = s.
Proof.
  induction n as [| n IH]; intros [| c r]; try reflexivity.
  cbn [takeStr dropStr]. by rewrite append_cons, IH.
Qed.

Lemma strLen_takeStr (n : nat) :
  forall s, Z.of_nat n <= strLen s -> strLen (takeStr n s) = Z.of_nat n.
Proof.
  induction n as [| n IH]; intros [| c r] H; try reflexivity.
  - rewrite Nat2Z.inj_succ in H. change (strLen EmptyString) with 0 in H. lia.
  - cbn [takeStr]. rewrite strLen_cons in *. rewrite IH by lia. lia.
Qed.

Lemma zeros_spec (n : nat) :
  allChars isDigit (zeros n) = true
  /\ strLen (zeros n) = Z.of_nat n
  /\ (forall acc, digitsValue 10 acc (zeros n) = Some (acc * 10 ^ Z.of_nat n)).
Proof.
  induction n as [| n (Hall & Hlen & Hval)].
  - repeat split. intros acc. cbn [zeros digitsValue]. f_equal.
    change (10 ^ Z.of_nat 0) with 1. lia.
  - cbn [zeros allChars digitsValue]. rewrite strLen_cons, Hall, Hlen.
    repeat split; [lia |].
    intros acc. change (digitIn 10 "0") with (Some 0). cbn iota beta. rewrite Hval.
    f_equal. rewrite Nat2Z.inj_succ, Z.pow_succ_r by lia. lia.
Qed.

Lemma digitsValue_bounds (s : string) :
  allChars isDigit s = true ->
  forall acc, exists v,
    digitsValue 10 acc s = Some (acc * 10 ^ strLen s + v) /\ 0 <= v < 10 ^ strLen s.
Proof.
  induction s as [| c r IH]; intros Hall acc.
  - exists 0. cbn [digitsValue]. change (strLen EmptyString) with 0. split; [f_equal |]; lia.
  - cbn [allChars] in Hall. apply andb_prop in Hall as [Hc Hr].
    cbn [digitsValue]. unfold digitIn, hexValue.
    unfold isDigit in Hc. rewrite Hc.
    apply andb_prop in Hc as [H1%Z.leb_le H2%Z.leb_le].
    replace (charCode c - 48 <? 10) with true by (symmetry; apply Z.ltb_lt; lia).
    destruct (IH Hr (10 * acc + (charCode c - 48))) as (v & Hv & Hb).
    exists ((charCode c - 48) * 10 ^ strLen r + v).
    rewrite Hv, strLen_cons.
    pose proof (strLen_nonneg r).
    rewrite Z.pow_add_r, Z.pow_1_r by lia.
    split; [f_equal; lia | nia].
Qed.

Lemma spanDigits_app (a b : string) :
  allChars isDigit a = true -> startsNonDigit b = true -> spanDigits (a ++ b) = (a, b).
Proof.
  intros Ha Hb. induction a as [| c r IH].
  - rewrite append_nil. destruct b as [| c r]; [done |].
    cbn [startsNonDigit spanDigits] in *. by destruct (isDigit c).
  - cbn [allChars] in Ha. apply andb_prop in Ha as [Hc Hr].
    rewrite append_cons. cbn [spanDigits]. by rewrite Hc, (IH Hr).
Qed.

(** *** Reading what the printer writes *)

Lemma digitsOf_cons (n : Z) : 0 <= n -> exists c r, digitsOf n = String c r /\ isDigit c = true.
Proof.
  intros Hn. destruct (digitsOf_spec n Hn) as (Hall & Hlen & _).
  destruct (digitsOf n) as [| c r]; [change (strLen EmptyString) with 0 in Hlen; lia |].
  exists c, r. split; [done |]. cbn [allChars] in Hall. by apply andb_prop in Hall as [? _].
Qed.

Lemma exponentPart_printed (e : Z) : exponentPart (printedExponent e) = Some e.
Proof.
  unfold printedExponent.
  destruct (digitsOf_cons (Z.abs e) ltac:(lia)) as (c & r & Hds & _).
  pose proof (digitsOf_value (Z.abs e) ltac:(lia)) as Hval.
  destruct (e <? 0) eqn:Hsign; rewrite !append_cons, append_nil, Hds in *;
    unfold exponentPart; cbn [bool_decide decide_rel orb]; 
    rewrite (bool_decide_eq_true_2 ("e"%char = "e"%char)) by done; cbn [orb];
    rewrite Hval; f_equal; lia.
Qed.

Lemma printedExponent_starts (e : Z) :
  exists r, printedExponent e = String "e" r.
Proof.
  unfold printedExponent. destruct (e <? 0); rewrite !append_cons; eauto.
Qed.

Lemma first_digit_not_Infinity (c : ascii) (r : string) :
  isDigit c = true -> String.eqb (String c r) "Infinity" = false.
Proof.
  intros Hc. cbn [String.eqb].
  destruct (Ascii.eqb_spec c "I") as [-> | _]; [discriminate Hc | done].
Qed.

(** A literal made of an integer part, a printed fraction and an exponent
    suffix (or none) has the value the standard gives it. *)
Lemma unsignedDecimalLiteral_printed (ip fp ex : string) (v e : Z) :
  allChars isDigit ip = true -> 1 <= strLen ip ->
  allChars isDigit fp = true ->
  (ex = EmptyString /\ e = 0 \/ ex = printedExponent e) ->
  digitsValue 10 0 (ip ++ fp) = Some v ->
  unsignedDecimalLiteral (ip ++ printedFraction fp ++ ex) = scaled v (e - strLen fp).
Proof.
  intros Hip Hlen Hfp Hex Hval.
  assert (Hexp : exponentPart ex = Some e).
  { destruct Hex as [[-> ->] | ->]; [reflexivity | apply exponentPart_printed]. }
  assert (Hstart : startsNonDigit ex = true /\ (ex = EmptyString \/ exists r, ex = String "e" r)).
  { destruct Hex as [[-> ->] | ->]; [by split; [| left] |].
    destruct (printedExponent_starts e) as [r Hr]. rewrite Hr. split; [done | eauto]. }
  destruct Hstart as [Hstart Hshape].
  unfold unsignedDecimalLiteral.
  destruct ip as [| c ip']; [change (strLen EmptyString) with 0 in Hlen; lia |].
  assert (Hc : isDigit c = true) by (cbn [allChars] in Hip; by apply andb_prop in Hip as [? _]).
  rewrite append_cons, first_digit_not_Infinity by done.
  rewrite <- append_cons.
  destruct fp as [| f fp'].
  - cbn [printedFraction]. rewrite append_nil.
    rewrite spanDigits_app by done.
    rewrite append_empty_r in Hval.
    assert (Hfrac : match ex with
                    | String "." r => spanDigits r
                    | _ => (EmptyString, ex)
                    end = (EmptyString, ex)).
    { destruct Hshape as [-> | [r ->]]; reflexivity. }
    rewrite Hfrac. cbn [String.eqb andb]. rewrite append_empty_r, Hval, Hexp.
    reflexivity.
  - cbn [printedFraction]. rewrite (append_cons "." _ ex).
    rewrite spanDigits_app by done.
    rewrite spanDigits_app by done.
    cbn [String.eqb andb]. by rewrite Hval, Hexp.
Qed.

Lemma scaled_canonical (vs j : Z) (m : Z) (d : nat) :
  0 <= j -> m = vs * 10 ^ j -> canonical (Finite m d) = true ->
  (d = O \/ j = 0) ->
  scaled vs (j - Z.of_nat d) = Finite m d.
Proof.
  intros Hj Hm Hcan [-> | ->].
  - unfold scaled. change (Z.of_nat 0) with 0. rewrite Z.sub_0_r.
    replace (0 <=? j) with true by (symmetry; apply Z.leb_le; lia). by rewrite Hm.
  - rewrite Z.pow_0_r, Z.mul_1_r in Hm. subst vs.
    destruct d as [| d]; [unfold scaled; cbn; by rewrite Z.mul_1_r |].
    unfold scaled.
    replace (0 <=? 0 - Z.of_nat (S d)) with false by (symmetry; apply Z.leb_gt; lia).
    replace (Z.to_nat (- (0 - Z.of_nat (S d)))) with (S d) by lia.
    cbn [normalize canonical] in *. by destruct (m mod 10 =? 0).
Qed.

(** The digits of a positive number, split into the significant digits and
    the trailing zeros. *)
Lemma significant_digits (m : Z) (d : nat) :
  0 < m -> canonical (Finite m d) = true ->
  exists (vs : Z) (j : nat),
    let ds := digitsOf m in
    let s := stripTrailingZeros ds in
    ds = s ++ zeros j
    /\ strLen ds = strLen s + Z.of_nat j
    /\ allChars isDigit s = true
    /\ 1 <= strLen s
    /\ digitsValue 10 0 s = Some vs
    /\ m = vs * 10 ^ Z.of_nat j
    /\ (d = O \/ j = O).
Proof.
  intros Hm Hcan.
  destruct (digitsOf_spec m ltac:(lia)) as (Hall & Hlen & Hval & _).
  destruct (stripTrailingZeros_zeros (digitsOf m)) as (j & Hs & Hj).
  set (ds := digitsOf m) in *. set (s := stripTrailingZeros ds) in *.
  assert (Halls : allChars isDigit s = true).
  { rewrite Hs, allChars_append in Hall. by apply andb_prop in Hall as [? _]. }
  destruct (digitsValue_bounds s Halls 0) as (vs & Hvs & Hb).
  rewrite Z.mul_0_l, Z.add_0_l in Hvs.
  destruct (zeros_spec j) as (_ & _ & Hz).
  assert (Hmv : m = vs * 10 ^ Z.of_nat j).
  { specialize (Hval 0). rewrite Z.mul_0_l, Z.add_0_l in Hval.
    rewrite Hs, digitsValue_append, Hvs, Hz in Hval. by injection Hval. }
  exists vs, j. cbn zeta. fold s.
  split; [done |]. split; [unfold strLen; lia |]. split; [done |].
  split; [| split; [done | split; [done |]]].
  - destruct s as [| c r]; [| rewrite strLen_cons; pose proof (strLen_nonneg r); lia].
    cbn [digitsValue] in Hvs. injection Hvs as <-. lia.
  - destruct d as [| d]; [by left | right].
    destruct j as [| j]; [done | exfalso].
    cbn [canonical] in Hcan.
    rewrite Nat2Z.inj_succ, Z.pow_succ_r in Hmv by lia.
    assert (m mod 10 = 0).
    { rewrite Hmv. apply Z.mod_divide; [lia |]. exists (vs * 10 ^ Z.of_nat j). lia. }
    apply negb_true_iff, Z.eqb_neq in Hcan. lia.
Qed.

Lemma allChars_takeStr (P : ascii -> bool) (n : nat) :
  forall s, allChars P s = true -> allChars P (takeStr n s) = true.
Proof.
  induction n as [| n IH]; intros [| c r] H; try reflexivity.
  cbn [takeStr allChars] in *. apply andb_prop in H as [Hc Hr]. by rewrite Hc, IH.
Qed.

Lemma allChars_dropStr (P : ascii -> bool) (n : nat) :
  forall s, allChars P s = true -> allChars P (dropStr n s) = true.
Proof.
  induction n as [| n IH]; intros [| c r] H; try done.
  cbn [dropStr allChars] in *. apply andb_prop in H as [Hc Hr]. by apply IH.
Qed.

Lemma strLen_dropStr (n : nat) (s : string) :
  Z.of_nat n <= strLen s -> strLen (dropStr n s) = strLen s - Z.of_nat n.
Proof.
  intros H. pose proof (strLen_takeStr n s H) as Ht.
  pose proof (f_equal strLen (takeStr_dropStr n s)) as Hsum.
  rewrite strLen_append in Hsum. lia.
Qed.

Lemma printedFraction_nonempty (fp : string) :
  1 <= strLen fp -> printedFraction fp = String "." fp.
Proof.
  destruct fp as [| c r]; [change (strLen EmptyString) with 0; lia | done].
Qed.

(** What the printer writes for a positive number: an integer part, a
    fraction and an exponent that denote the number. *)
Lemma positiveToString_printed (m : Z) (d : nat) :
  0 < m -> canonical (Finite m d) = true ->
  exists (ip fp ex : string) (e v : Z),
    positiveToString m d = ip ++ printedFraction fp ++ ex
    /\ allChars isDigit ip = true /\ 1 <= strLen ip
    /\ allChars isDigit fp = true
    /\ (ex = EmptyString /\ e = 0 \/ ex = printedExponent e)
    /\ digitsValue 10 0 (ip ++ fp) = Some v
    /\ scaled v (e - strLen fp) = Finite m d.
Proof.
  intros Hm Hcan.
  destruct (significant_digits m d Hm Hcan) as (vs & j & Hs & Hlen & Hall & Hk & Hvs & Hmv & Hdj).
  cbn zeta in *.
  pose proof (scaled_canonical vs (Z.of_nat j) m d ltac:(lia) Hmv Hcan
                ltac:(destruct Hdj as [? | ->]; [by left | by right])) as Hscaled.
  unfold positiveToString.
  set (ds := digitsOf m) in *. set (s := stripTrailingZeros ds) in *.
  clearbody s. clearbody ds.
  set (n := strLen ds - Z.of_nat d).
  assert (Hn : n = strLen s + Z.of_nat j - Z.of_nat d) by (unfold n; lia).
  clearbody n.
  destruct ((strLen s <=? n) && (n <=? 21)) eqn:HA.
  { (* the digits, followed by zeros *)
    apply andb_prop in HA as [H1%Z.leb_le H2%Z.leb_le].
    assert (d = O) as -> by (destruct Hdj as [? | ->]; [done | lia]).
    exists ds, EmptyString, EmptyString, 0, m. cbn [printedFraction].
    rewrite !append_empty_r. change (strLen EmptyString) with 0.
    replace (Z.to_nat (n - strLen s)) with j by lia.
    destruct (zeros_spec j) as (Hz & _ & Hzv).
    split; [by rewrite Hs |].
    split; [by rewrite Hs, allChars_append, Hall, Hz |].
    split; [lia |]. split; [done |]. split; [by left |].
    split.
    - rewrite Hs, digitsValue_append, Hvs, Hzv. by rewrite Hmv.
    - unfold scaled. cbn. by rewrite Z.mul_1_r. }
  destruct ((0 <? n) && (n <=? 21)) eqn:HB.
  { (* a decimal point inside the digits *)
    apply andb_prop in HB as [H1%Z.ltb_lt H2%Z.leb_le].
    apply andb_false_iff in HA as [HA%Z.leb_gt | HA%Z.leb_gt]; [| lia].
    exists (takeStr (Z.to_nat n) s), (dropStr (Z.to_nat n) s), EmptyString, 0, vs.
    assert (Hdrop : strLen (dropStr (Z.to_nat n) s) = strLen s - n)
      by (rewrite strLen_dropStr; lia).
    rewrite printedFraction_nonempty by lia.
    rewrite append_empty_r, takeStr_dropStr.
    split; [reflexivity |].
    split; [by apply allChars_takeStr |].
    split; [rewrite strLen_takeStr; lia |].
    split; [by apply allChars_dropStr |].
    split; [by left |]. split; [done |].
    rewrite <- Hscaled. f_equal. lia. }
  destruct ((-6 <? n) && (n <=? 0)) eqn:HC.
  { (* zeros between the decimal point and the digits *)
    apply andb_prop in HC as [H1%Z.ltb_lt H2%Z.leb_le].
    destruct (zeros_spec (Z.to_nat (- n))) as (Hz & Hzl & Hzv).
    exists "0", (zeros (Z.to_nat (- n)) ++ s), EmptyString, 0, vs.
    rewrite printedFraction_nonempty by (rewrite strLen_append; lia).
    rewrite append_empty_r.
    split; [reflexivity |].
    split; [reflexivity |]. split; [reflexivity |].
    split; [by rewrite allChars_append, Hz, Hall |].
    split; [by left |].
    split.
    - rewrite append_cons, append_nil. cbn [digitsValue].
      change (digitIn 10 "0") with (Some 0). cbn iota beta.
      rewrite digitsValue_append, Hzv. by rewrite !Z.mul_0_l.
    - rewrite <- Hscaled. f_equal. rewrite strLen_append. lia. }
  (* exponential notation *)
  fold (printedExponent (n - 1)).
  destruct (strLen s =? 1) eqn:Hone.
  - apply Z.eqb_eq in Hone.
    exists s, EmptyString, (printedExponent (n - 1)), (n - 1), vs.
    cbn [printedFraction]. rewrite append_nil, append_empty_r.
    change (strLen EmptyString) with 0.
    split; [reflexivity |]. split; [done |]. split; [lia |]. split; [done |].
    split; [by right |]. split; [done |].
    rewrite <- Hscaled. f_equal. lia.
  - apply Z.eqb_neq in Hone.
    exists (takeStr 1 s), (dropStr 1 s), (printedExponent (n - 1)), (n - 1), vs.
    assert (Hdrop : strLen (dropStr 1 s) = strLen s - 1)
      by (rewrite strLen_dropStr; lia).
    rewrite printedFraction_nonempty by lia.
    rewrite takeStr_dropStr.
    split; [reflexivity |].
    split; [by apply allChars_takeStr |].
    split; [rewrite strLen_takeStr; lia |].
    split; [by apply allChars_dropStr |].
    split; [by right |]. split; [done |].
    rewrite <- Hscaled. f_equal. lia.
Qed.

Lemma noWhiteSpace_append (a b : string) :
  noWhiteSpace (a ++ b) = noWhiteSpace a && noWhiteSpace b.
Proof. apply allChars_append. Qed.

Lemma printedExponent_noWhiteSpace (e : Z) : noWhiteSpace (printedExponent e) = true.
Proof.
  unfold printedExponent. rewrite noWhiteSpace_append.
  destruct (digitsOf_spec (Z.abs e) ltac:(lia)) as (Hall & _).
  rewrite (digits_noWhiteSpace _ Hall). by destruct (e <? 0).
Qed.

Lemma nonDecimalLiteral_single (c : ascii) : nonDecimalLiteral (String c EmptyString) = None.
Proof. by destruct c as [[] [] [] [] [] [] [] []]. Qed.

Lemma nonDecimalLiteral_second (c1 c2 : ascii) (r : string) :
  isDigit c2 = true \/ c2 = "."%char \/ c2 = "e"%char ->
  nonDecimalLiteral (String c1 (String c2 r)) = None.
Proof.
  intros H. destruct c1 as [[] [] [] [] [] [] [] []]; try reflexivity.
  destruct H as [H | [-> | ->]]; try reflexivity.
  destruct c2 as [[] [] [] [] [] [] [] []]; try reflexivity; discriminate H.
Qed.

(** The reader on what the printer writes for a positive number. *)
Lemma printed_reads_back (ip fp ex : string) (v e : Z) :
  allChars isDigit ip = true -> 1 <= strLen ip ->
  allChars isDigit fp = true ->
  (ex = EmptyString /\ e = 0 \/ ex = printedExponent e) ->
  digitsValue 10 0 (ip ++ fp) = Some v ->
  let t := ip ++ printedFraction fp ++ ex in
  noWhiteSpace t = true
  /\ (exists c r, t = String c r /\ isDigit c = true)
  /\ nonDecimalLiteral t = None
  /\ unsignedDecimalLiteral t = scaled v (e - strLen fp).
Proof.
  intros Hip Hlen Hfp Hex Hval t. subst t.
  split; [| split; [| split]].
  - rewrite !noWhiteSpace_append, (digits_noWhiteSpace _ Hip).
    assert (Hfrac : noWhiteSpace (printedFraction fp) = true).
    { destruct fp as [| c r]; [done |]. cbn [printedFraction].
      pose proof (digits_noWhiteSpace _ Hfp) as Hws.
      unfold noWhiteSpace in *. cbn [allChars] in *. by rewrite Hws. }
    rewrite Hfrac.
    destruct Hex as [[-> _] | ->]; [done | by rewrite printedExponent_noWhiteSpace].
  - destruct ip as [| c r]; [change (strLen EmptyString) with 0 in Hlen; lia |].
    rewrite append_cons. eexists _, _. split; [done |].
    cbn [allChars] in Hip. by apply andb_prop in Hip as [? _].
  - destruct ip as [| c1 [| c2 r]]; [change (strLen EmptyString) with 0 in Hlen; lia | |].
    + rewrite append_cons, append_nil.
      destruct fp as [| f fr]; cbn [printedFraction].
      * rewrite append_nil. destruct Hex as [[-> _] | ->].
        -- apply nonDecimalLiteral_single.
        -- destruct (printedExponent_starts e) as [r ->].
           apply nonDecimalLiteral_second. tauto.
      * rewrite append_cons. apply nonDecimalLiteral_second. tauto.
    + rewrite !append_cons. apply nonDecimalLiteral_second. left.
      cbn [allChars] in Hip.
      by apply andb_prop in Hip as [_ [? _]%andb_prop].
  - by apply unsignedDecimalLiteral_printed.
Qed.

Lemma canonical_negate (x : JsNumber) : canonical (negate x) = canonical x.
Proof.
  destruct x as [| b | n [| d]]; try reflexivity.
  cbn [negate canonical]. f_equal.
  destruct (Z.eqb_spec (n mod 10) 0) as [H | H], (Z.eqb_spec (- n mod 10) 0) as [H' | H'];
    try reflexivity; exfalso.
  - apply H'. apply Z.mod_divide in H; [| lia].
    apply Z.mod_divide; [lia |]. by apply Z.divide_opp_r.
  - apply H. apply Z.mod_divide in H'; [| lia].
    apply Z.mod_divide; [lia |]. rewrite <- (Z.opp_involutive n).
    by apply Z.divide_opp_r.
Qed.

(** The printer loses nothing: every canonical number reads back from its
    string, which has neither leading nor trailing blanks. *)
Lemma toString_reads_back (x : JsNumber) :
  canonical x = true ->
  stringToNumber (toString x) = x
  /\ trim (toString x) = toString x
  /\ String.eqb (toString x) EmptyString = false.
Proof.
  intros Hcan. destruct x as [| b | m d];
    [by vm_compute | destruct b; by vm_compute |].
  unfold toString.
  destruct (Z.eqb_spec m 0) as [-> | Hne].
  { destruct d as [| d]; [by vm_compute | discriminate Hcan]. }
  destruct (Z.ltb_spec m 0) as [Hneg | Hpos].
  - assert (Hcan' : canonical (Finite (- m) d) = true)
      by (by rewrite <- Hcan, <- (canonical_negate (Finite m d))).
    destruct (positiveToString_printed (- m) d ltac:(lia) Hcan')
      as (ip & fp & ex & e & v & -> & Hip & Hlen & Hfp & Hex & Hval & Hscaled).
    destruct (printed_reads_back ip fp ex v e Hip Hlen Hfp Hex Hval)
      as (Hws & _ & _ & Hread).
    cbn zeta in *. rewrite append_cons, append_nil.
    assert (Htrim : trim (String "-" (ip ++ printedFraction fp ++ ex))
                    = String "-" (ip ++ printedFraction fp ++ ex)).
    { apply trim_id. unfold noWhiteSpace in *. cbn [allChars]. by rewrite Hws. }
    split; [| by split].
    unfold stringToNumber. rewrite Htrim.
    cbn [String.eqb nonDecimalLiteral decimalLiteral].
    rewrite Hread, Hscaled. cbn [negate]. by rewrite Z.opp_involutive.
  - destruct (positiveToString_printed m d ltac:(lia) Hcan)
      as (ip & fp & ex & e & v & -> & Hip & Hlen & Hfp & Hex & Hval & Hscaled).
    destruct (printed_reads_back ip fp ex v e Hip Hlen Hfp Hex Hval)
      as (Hws & (c & r & Ht & Hc) & Hnd & Hread).
    cbn zeta in *.
    rewrite trim_id by done.
    split; [| split; [done | by rewrite Ht]].
    unfold stringToNumber. rewrite trim_id by done.
    rewrite Hnd. rewrite Ht in *. cbn [String.eqb].
    rewrite decimalLiteral_digit by done.
    by rewrite Hread.
Qed.

(** *** The reader produces canonical numbers *)

Lemma canonical_normalize (d : nat) : forall n, canonical (normalize n d) = true.
Proof.
  induction d as [| d IH]; intros n; [reflexivity |].
  cbn [normalize]. destruct (n mod 10 =? 0) eqn:E; [apply IH |].
  cbn [canonical]. by rewrite E.
Qed.

Lemma canonical_scaled (m e : Z) : canonical (scaled m e) = true.
Proof.
  unfold scaled. destruct (0 <=? e); [reflexivity | apply canonical_normalize].
Qed.

Lemma canonical_unsignedDecimalLiteral (t : string) :
  canonical (unsignedDecimalLiteral t) = true.
Proof.
  unfold unsignedDecimalLiteral.
  destruct (String.eqb t "Infinity"); [reflexivity |].
  destruct (spanDigits t) as [ip r1].
  destruct (match r1 with
            | String "." r => spanDigits r
            | _ => (EmptyString, r1)
            end) as [fp r2].
  destruct (String.eqb ip EmptyString && String.eqb fp EmptyString); [reflexivity |].
  destruct (digitsValue 10 0 (ip ++ fp)); [| reflexivity].
  destruct (exponentPart r2); [apply canonical_scaled | reflexivity].
Qed.

Lemma canonical_nonDecimalLiteral (t : string) (x : JsNumber) :
  nonDecimalLiteral t = Some x -> canonical x = true.
Proof.
  intros H. destruct t as [| c1 [| p ds]]; [discriminate H | |];
    destruct c1 as [[] [] [] [] [] [] [] []]; try discriminate H.
  cbn [nonDecimalLiteral] in H.
  destruct (if bool_decide (p = "x"%char) || bool_decide (p = "X"%char) then Some 16
            else if bool_decide (p = "o"%char) || bool_decide (p = "O"%char) then Some 8
            else if bool_decide (p = "b"%char) || bool_decide (p = "B"%char) then Some 2
            else None) as [radix |]; [| discriminate H].
  destruct ds as [| d ds]; [by injection H as <- |].
  destruct (digitsValue radix 0 (String d ds)); by injection H as <-.
Qed.

Lemma canonical_decimalLiteral (t : string) : canonical (decimalLiteral t) = true.
Proof.
  destruct t as [| c r]; [apply canonical_unsignedDecimalLiteral |].
  destruct c as [[] [] [] [] [] [] [] []]; cbn [decimalLiteral];
    rewrite ?canonical_negate; apply canonical_unsignedDecimalLiteral.
Qed.

Lemma canonical_stringToNumber (s : string) : canonical (stringToNumber s) = true.
Proof.
  unfold stringToNumber.
  destruct (String.eqb (trim s) EmptyString); [reflexivity |].
  destruct (nonDecimalLiteral (trim s)) as [x |] eqn:E.
  - by eapply canonical_nonDecimalLiteral.
  - apply canonical_decimalLiteral.
Qed.

(** ** Input validator *)

Lemma safe_integer_bound (n : Z) : isSafeInteger n = true -> Z.abs n < 10 ^ 21.
Proof.
  unfold isSafeInteger. intros H%Z.leb_le.
  assert (9007199254740991 < 10 ^ 21) by reflexivity. lia.
Qed.

Lemma strictEq_zero (x : JsNumber) :
  isNaN x = false -> x <> ofZ 0 -> strictEq x (ofZ 0) = false.
Proof.
  intros Hnan Hne. destruct x; [discriminate Hnan | |];
    unfold strictEq, ofZ; by rewrite bool_decide_eq_false_2.
Qed.

(** The validator, case by case. *)
Lemma parseGasLimit_cases (input : GasLimitInput) :
  match parseGasLimit input with
  | Throw _ => gasLimitRejected input = true
  | Return g => gasLimitRejected input = false /\ g = Number input
  end.
Proof.
  unfold parseGasLimit, gasLimitRejected.
  assert (Htype : negb (String.eqb (typeOf input) "string")
                  && negb (String.eqb (typeOf input) "number") = false)
    by (by destruct input).
  rewrite Htype. cbn [orb].
  destruct (String.eqb (trim (template input)) EmptyString); [done |].
  cbn [orb]. by destruct (isNaN (Number input) || strictEq (Number input) (ofZ 0)).
Qed.

(** A number that is neither NaN nor zero passes the validator, as a
    number and as its string. *)
Lemma parseGasLimit_printed (x : JsNumber) :
  canonical x = true -> isNaN x = false -> x <> ofZ 0 ->
  parseGasLimit (InString (toString x)) = Return x
  /\ parseGasLimit (InNumber x) = Return x.
Proof.
  intros Hcan Hnan Hne.
  destruct (toString_reads_back x Hcan) as (Hread & Htrim & Hnonempty).
  pose proof (strictEq_zero x Hnan Hne) as Hzero.
  unfold parseGasLimit. cbn [typeOf template Number String.eqb negb andb orb].
  by rewrite Htrim, Hnonempty, Hread, Hnan, Hzero.
Qed.

Lemma parseGasLimit_digits (s : string) (v : Z) :
  allChars isDigit s = true -> digitsValue 10 0 s = Some v -> v <> 0 ->
  parseGasLimit (InString s) = Return (ofZ v).
Proof.
  intros Hall Hval Hne.
  destruct s as [| c r]; [injection Hval as <-; done |].
  assert (Hc : isDigit c = true) by (cbn [allChars] in Hall; by apply andb_prop in Hall as [? _]).
  assert (Hnum : stringToNumber (String c r) = ofZ v).
  { unfold stringToNumber. rewrite trim_id by (by apply digits_noWhiteSpace).
    cbn [String.eqb]. rewrite nonDecimalLiteral_digits, decimalLiteral_digit by done.
    apply unsignedDecimalLiteral_digits; [done | | done].
    unfold strLen. cbn [String.length]. lia. }
  unfold parseGasLimit. cbn [typeOf template Number String.eqb negb andb orb].
  rewrite trim_id by (by apply digits_noWhiteSpace).
  rewrite Hnum. cbn [String.eqb isNaN ofZ orb].
  unfold strictEq, ofZ. rewrite bool_decide_eq_false_2 by (intros [= ?]; done).
  reflexivity.
Qed.

Lemma digitsValue_nonneg (s : string) :
  forall acc v, 0 <= acc -> digitsValue 10 acc s = Some v -> 0 <= v.
Proof.
  induction s as [| c r IH]; intros acc v Hacc; cbn [digitsValue].
  - intros [= <-]. done.
  - unfold digitIn, hexValue.
    destruct ((48 <=? charCode c) && (charCode c <=? 57)) eqn:H1;
      [| destruct ((97 <=? charCode c) && (charCode c <=? 102)) eqn:H2;
         [| destruct ((65 <=? charCode c) && (charCode c <=? 70)) eqn:H3; [| done]]];
      match goal with |- context [?a <? 10] => destruct (a <? 10) end;
      try done; apply IH; lia.
Qed.

(** C3, as stated, fails: ["-5"] and ["1.5"] are not rejected, and what the
    validator returns for them is not an unsigned integer. *)
Lemma parseGasLimit_returns_non_unsigned :
  (parseGasLimit (InString "-5") = Return (Finite (-5) 0)
   /\ gasLimitRejected (InString "-5") = false
   /\ isUnsignedInteger (Finite (-5) 0) = false)
  /\ (parseGasLimit (InString "1.5") = Return (Finite 15 1)
      /\ gasLimitRejected (InString "1.5") = false
      /\ isUnsignedInteger (Finite 15 1) = false)
  /\ ~ acceptsOnlyUnsignedIntegers.
Proof.
  split; [repeat split; vm_compute; reflexivity |].
  split; [repeat split; vm_compute; reflexivity |].
  intros H. destruct (H (InString "-5") eq_refl) as [g [Hg Hu]].
  vm_compute in Hg. injection Hg as <-. discriminate Hu.
Qed.

(** C3, amended. parseGasLimit throws exactly when the trimmed input is
    empty, converts to NaN, or converts to zero; on every other input it
    returns the converted number as it is.  That number is an unsigned
    integer for a string of decimal digits (leading zeros allowed) and for
    a positive integer, inside the safe-integer range.  It throws on "0",
    on the empty string and on "abc", and returns 30000000 on
    "30000000". *)
Theorem parseGasLimit_spec :
  (forall input : GasLimitInput,
     match parseGasLimit input with
     | Throw _ => gasLimitRejected input = true
     | Return g => gasLimitRejected input = false /\ g = Number input
     end)
  /\ (forall (s : string) (v : Z),
        allChars isDigit s = true -> digitsValue 10 0 s = Some v ->
        v <> 0 -> isSafeInteger v = true ->
        parseGasLimit (InString s) = Return (ofZ v)
        /\ isUnsignedInteger (ofZ v) = true)
  /\ (forall n : Z,
        0 < n -> isSafeInteger n = true ->
        parseGasLimit (InNumber (ofZ n)) = Return (ofZ n)
        /\ isUnsignedInteger (ofZ n) = true)
  /\ isThrow (parseGasLimit (InString "0")) = true
  /\ parseGasLimit (InString "30000000") = Return (ofZ 30000000)
  /\ isThrow (parseGasLimit (InString EmptyString)) = true
  /\ isThrow (parseGasLimit (InString "abc")) = true.
Proof.
  split; [| split; [| split]].
  - exact parseGasLimit_cases.
  - intros s v Hall Hval Hne Hsafe.
    split; [by apply parseGasLimit_digits |].
    pose proof (digitsValue_nonneg s 0 v ltac:(lia) Hval).
    unfold isUnsignedInteger, ofZ. lia.
  - intros n Hpos Hsafe. split.
    + apply parseGasLimit_printed; [reflexivity | reflexivity |].
      unfold ofZ. intros [= ->]. lia.
    + unfold isUnsignedInteger, ofZ. lia.
  - repeat split; vm_compute; reflexivity.
Qed.

(** The validator on "030" and on the number 30000000. *)
Lemma parseGasLimit_spec_witness :
  (parseGasLimit (InString "030") = Return (ofZ 30)
   /\ isUnsignedInteger (ofZ 30) = true)
  /\ (parseGasLimit (InNumber (ofZ 30000000)) = Return (ofZ 30000000)
      /\ isUnsignedInteger (ofZ 30000000) = true).
Proof.
  split.
  - apply (proj1 (proj2 parseGasLimit_spec) "030" 30);
      [reflexivity | reflexivity | lia | reflexivity].
  - apply (proj1 (proj2 (proj2 parseGasLimit_spec)) 30000000); [lia | reflexivity].
Defined.

(** ** Request serializers *)

(** C2, as stated, fails at setGasLimit: the wire request with gas_limit
    "030" is parsed to 30 and written back as "30", and the arguments with
    gas limit 0 are written as "0", which the parser rejects. *)
Lemma setGasLimit_round_trip_fails :
  let s := getReqSerializers Api.setGasLimit in
  let w := mkReq (Wire.mkPubkeyParams "0xaa") (Wire.mkGasLimitBody "030") in
  (parseReq s w = Return ("0xaa", ofZ 30)
   /\ writeReq s ("0xaa", ofZ 30)
      = mkReq (Wire.mkPubkeyParams "0xaa") (Wire.mkGasLimitBody "30")
   /\ ~ wireRoundTrip s w)
  /\ (writeReq s ("0xaa", ofZ 0)
      = mkReq (Wire.mkPubkeyParams "0xaa") (Wire.mkGasLimitBody "0")
      /\ parseReq s (writeReq s ("0xaa", ofZ 0))
         = Throw "Gas Limit is not valid gasLimit=0"
      /\ ~ argsRoundTrip s ("0xaa", ofZ 0))
  /\ ~ allSerializersRoundTrip.
Proof.
  intros s w.
  assert (Hw : ~ wireRoundTrip s w).
  { intros [a [Hparse Hwrite]]. vm_compute in Hparse.
    injection Hparse as <-. vm_compute in Hwrite. discriminate Hwrite. }
  assert (Ha : ~ argsRoundTrip s ("0xaa", ofZ 0)).
  { unfold argsRoundTrip. vm_compute. discriminate. }
  split; [| split].
  - split; [vm_compute; reflexivity |]. split; [vm_compute; reflexivity | exact Hw].
  - split; [vm_compute; reflexivity |]. split; [vm_compute; reflexivity | exact Ha].
  - intros [Hall _]. exact (Hw (Hall Api.setGasLimit w)).
Qed.

(** C2, amended. For every operation other than setGasLimit, parseReq and
    writeReq are inverse to each other at every wire request and at every
    argument tuple.  For setGasLimit, parseReq (writeReq (pubkey, g)) gives
    back (pubkey, g) exactly when g is neither NaN nor zero, and
    writeReq (parseReq w) gives back w exactly when the gas_limit of w is
    the base-10 string of a number that is neither NaN nor zero; the
    base-10 string of a safe integer is its sign and decimal digits. *)
Theorem serializers_round_trip :
  (forall m : Api.method,
     m <> Api.setGasLimit ->
     (forall w : Req m, wireRoundTrip (getReqSerializers m) w)
     /\ (forall a : Args m, argsRoundTrip (getReqSerializers m) a))
  /\ (forall (pubkey : string) (g : JsNumber),
        canonical g = true ->
        argsRoundTrip (getReqSerializers Api.setGasLimit) (pubkey, g)
        <-> isNaN g = false /\ g <> ofZ 0)
  /\ (forall w : ReqGeneric Wire.PubkeyParams Wire.GasLimitBody,
        wireRoundTrip (getReqSerializers Api.setGasLimit) w
        <-> exists g : JsNumber,
              canonical g = true /\ isNaN g = false /\ g <> ofZ 0
              /\ Wire.gas_limit (body w) = toString g)
  /\ (forall (pubkey : string) (n : Z),
        n <> 0 -> isSafeInteger n = true ->
        writeReq (getReqSerializers Api.setGasLimit) (pubkey, ofZ n)
        = mkReq (Wire.mkPubkeyParams pubkey)
            (Wire.mkGasLimitBody
               ((if n <? 0 then "-" else EmptyString) ++ digitsOf (Z.abs n)))).
Proof.
  split; [| split; [| split]].
  - intros m Hm. unfold wireRoundTrip, argsRoundTrip.
    destruct m; try (exfalso; by apply Hm); cbn [Req Args]; split.
    all: try (intros [[] []]; by eexists).
    all: try (intros [[] [?]]; by eexists).
    all: try (intros [[?] []]; by eexists).
    all: try (intros [[?] [?]]; by eexists).
    all: try (intros [[] [? ? ?]]; by eexists).
    all: try (intros []; reflexivity).
    all: try (intros [[? ?] ?]; reflexivity).
    all: try (intros [? ?]; reflexivity).
    all: try (intros ?; reflexivity).
  - intros pubkey g Hcan. unfold argsRoundTrip.
    cbn [getReqSerializers writeReq parseReq body params Wire.gas_limit Wire.pubkey].
    split.
    + intros H. pose proof (parseGasLimit_cases (InString (toString g))) as Hcases.
      destruct (parseGasLimit (InString (toString g))) as [g' |]; [| discriminate H].
      destruct Hcases as [Hrej Hg']. injection H as ->.
      unfold gasLimitRejected in Hrej. cbn [Number] in Hrej.
      destruct (toString_reads_back g Hcan) as (Hread & _ & _).
      rewrite Hread in Hrej.
      apply orb_false_elim in Hrej as [[_ Hnan]%orb_false_elim Hzero].
      split; [done |]. intros ->. discriminate Hzero.
    + intros [Hnan Hne].
      by rewrite (proj1 (parseGasLimit_printed g Hcan Hnan Hne)).
  - intros [[pubkey] [gas_limit]]. unfold wireRoundTrip.
    cbn [getReqSerializers writeReq parseReq body params Wire.gas_limit Wire.pubkey].
    split.
    + intros [[pk g] [Hparse Hwrite]].
      pose proof (parseGasLimit_cases (InString gas_limit)) as Hcases.
      destruct (parseGasLimit (InString gas_limit)) as [g' |]; [| discriminate Hparse].
      destruct Hcases as [Hrej Hg']. injection Hparse as <- <-.
      injection Hwrite as <-.
      unfold gasLimitRejected in Hrej. cbn [Number] in Hrej, Hg'.
      apply orb_false_elim in Hrej as [[_ Hnan]%orb_false_elim Hzero].
      exists g'. split; [rewrite Hg'; apply canonical_stringToNumber |].
      split; [by rewrite Hg' |]. split; [| done].
      intros Hz. rewrite <- Hg', Hz in Hzero. discriminate Hzero.
    + intros (g & Hcan & Hnan & Hne & ->).
      exists (pubkey, g).
      by rewrite (proj1 (parseGasLimit_printed g Hcan Hnan Hne)).
  - intros pubkey n Hne Hsafe.
    pose proof (safe_integer_bound n Hsafe) as Hlt.
    cbn [getReqSerializers writeReq]. do 2 f_equal.
    destruct (n <? 0) eqn:Hsign.
    + apply Z.ltb_lt in Hsign. rewrite <- (Z.opp_involutive n) at 1.
      rewrite toString_negative_integer by lia.
      by replace (Z.abs n) with (- n) by lia.
    + apply Z.ltb_ge in Hsign. rewrite toString_integer by lia.
      by replace (Z.abs n) with n by lia.
Qed.

(** The serializers of deleteKeys and of setGasLimit at concrete values. *)
Lemma serializers_round_trip_witness :
  wireRoundTrip (getReqSerializers Api.deleteKeys)
    (mkReq tt (Wire.mkPubkeysBody ["0xaa"; "0xbb"]))
  /\ argsRoundTrip (getReqSerializers Api.setGasLimit) ("0xaa", ofZ 30000000)
  /\ wireRoundTrip (getReqSerializers Api.setGasLimit)
       (mkReq (Wire.mkPubkeyParams "0xaa") (Wire.mkGasLimitBody "1.5"))
  /\ writeReq (getReqSerializers Api.setGasLimit) ("0xaa", ofZ 30000000)
     = mkReq (Wire.mkPubkeyParams "0xaa") (Wire.mkGasLimitBody "30000000").
Proof.
  split; [| split; [| split]].
  - apply (proj1 serializers_round_trip Api.deleteKeys); discriminate.
  - apply (proj1 (proj2 serializers_round_trip) "0xaa" (ofZ 30000000)); [reflexivity |].
    split; [reflexivity | discriminate].
  - apply (proj1 (proj2 (proj2 serializers_round_trip))).
    exists (Finite 15 1). repeat split; [discriminate].
  - apply (proj2 (proj2 (proj2 serializers_round_trip)) "0xaa" 30000000); [lia | reflexivity].
Defined.

(** * Further properties *)

(** ** Blank strings and padding *)

Lemma trimStart_blank (s : string) :
  allChars isWhiteSpace s = true -> trimStart s = EmptyString.
Proof.
  induction s as [| c r IH]; [done |].
  cbn [allChars trimStart]. intros [Hc Hr]%andb_prop. rewrite Hc. by apply IH.
Qed.

Lemma trimStart_empty_blank (s : string) :
  trimStart s = EmptyString -> allChars isWhiteSpace s = true.
Proof.
  induction s as [| c r IH]; [done |].
  cbn [allChars trimStart]. destruct (isWhiteSpace c); [apply IH | discriminate].
Qed.

Lemma trimEnd_blank (s : string) :
  allChars isWhiteSpace s = true -> trimEnd s = EmptyString.
Proof.
  induction s as [| c r IH]; [done |].
  cbn [allChars trimEnd]. intros [Hc Hr]%andb_prop. by rewrite (IH Hr), Hc.
Qed.

Lemma trimEnd_empty_blank (s : string) :
  trimEnd s = EmptyString -> allChars isWhiteSpace s = true.
Proof.
  induction s as [| c r IH]; [done |].
  cbn [allChars trimEnd]. destruct (trimEnd r) as [| c' r']; [| discriminate].
  destruct (isWhiteSpace c); [intros _; by apply IH | discriminate].
Qed.

Lemma trimStart_prefix (pre s : string) :
  allChars isWhiteSpace pre = true -> trimStart (pre ++ s) = trimStart s.
Proof.
  induction pre as [| c r IH]; [done |].
  cbn [allChars]. intros [Hc Hr]%andb_prop.
  rewrite append_cons. cbn [trimStart]. rewrite Hc. by apply IH.
Qed.

Lemma trimEnd_suffix (s post : string) :
  allChars isWhiteSpace post = true -> trimEnd (s ++ post) = trimEnd s.
Proof.
  intros Hpost. induction s as [| c r IH].
  - rewrite append_nil. by apply trimEnd_blank.
  - rewrite append_cons. cbn [trimEnd]. by rewrite IH.
Qed.

Lemma trimStart_app (s post : string) :
  trimStart s = EmptyString \/ trimStart (s ++ post) = trimStart s ++ post.
Proof.
  induction s as [| c r IH]; [by left |].
  rewrite append_cons. cbn [trimStart].
  destruct (isWhiteSpace c); [exact IH | right; by rewrite append_cons].
Qed.

Lemma trim_blank (s : string) :
  String.eqb (trim s) EmptyString = allChars isWhiteSpace s.
Proof.
  unfold trim. destruct (allChars isWhiteSpace s) eqn:H.
  - by rewrite trimStart_blank.
  - destruct (String.eqb_spec (trimEnd (trimStart s)) EmptyString) as [E | E]; [| done].
    apply trimEnd_empty_blank in E.
    assert (Hs : trimStart s = EmptyString).
    { destruct s as [| c r]; [done |].
      clear H. revert E. generalize (String c r). intros t.
      induction t as [| c' r' IH]; [done |].
      cbn [trimStart]. destruct (isWhiteSpace c') eqn:Hc; [exact IH |].
      cbn [allChars]. rewrite Hc. discriminate. }
    apply trimStart_empty_blank in Hs. congruence.
Qed.

Lemma trim_padded (pre s post : string) :
  allChars isWhiteSpace pre = true -> allChars isWhiteSpace post = true ->
  trim (pre ++ s ++ post) = trim s.
Proof.
  intros Hpre Hpost. unfold trim. rewrite trimStart_prefix by done.
  destruct (trimStart_app s post) as [Hs | ->]; [| by apply trimEnd_suffix].
  rewrite Hs. rewrite trimStart_blank; [done |].
  rewrite allChars_append, Hpost. by rewrite (trimStart_empty_blank _ Hs).
Qed.

Lemma trimEnd_idempotent (s : string) : trimEnd (trimEnd s) = trimEnd s.
Proof.
  induction s as [| c r IH]; [done |].
  cbn [trimEnd]. destruct (trimEnd r) as [| c' r'] eqn:E.
  - destruct (isWhiteSpace c) eqn:Hc; [done |]. cbn [trimEnd]. by rewrite Hc.
  - cbn [trimEnd]. cbn [trimEnd] in IH. rewrite IH.
    by destruct (match trimEnd r' with
                 | EmptyString => if isWhiteSpace c' then EmptyString else String c' EmptyString
                 | String a s0 => String c' (String a s0)
                 end).
Qed.

Lemma trimStart_trimEnd (s : string) :
  trimStart (trimEnd (trimStart s)) = trimEnd (trimStart s).
Proof.
  induction s as [| c r IH]; [done |].
  cbn [trimStart]. destruct (isWhiteSpace c) eqn:Hc; [exact IH |].
  cbn [trimEnd]. destruct (trimEnd r); rewrite ?Hc; cbn [trimStart]; by rewrite Hc.
Qed.

Lemma trim_idempotent (s : string) : trim (trim s) = trim s.
Proof.
  unfold trim. by rewrite trimStart_trimEnd, trimEnd_idempotent.
Qed.

Lemma parseGasLimit_trim_ext (a b : string) :
  trim a = trim b -> parseGasLimit (InString a) = parseGasLimit (InString b).
Proof.
  intros H. unfold parseGasLimit, Number, template, stringToNumber.
  cbn [typeOf]. by rewrite H.
Qed.

(** X1. parseGasLimit ignores white space around a string: padding the
    input with white space on either side, or trimming it, changes neither
    the value returned nor the error thrown. *)
Theorem parseGasLimit_ignores_padding :
  (forall pre s post : string,
     allChars isWhiteSpace pre = true -> allChars isWhiteSpace post = true ->
     parseGasLimit (InString (pre ++ s ++ post)) = parseGasLimit (InString s))
  /\ (forall s : string, parseGasLimit (InString (trim s)) = parseGasLimit (InString s)).
Proof.
  split.
  - intros pre s post Hpre Hpost. by apply parseGasLimit_trim_ext, trim_padded.
  - intros s. apply parseGasLimit_trim_ext, trim_idempotent.
Qed.

(** The validator on a padded and on an untrimmed string. *)
Lemma parseGasLimit_ignores_padding_witness :
  parseGasLimit (InString (" " ++ "30000000" ++ " "))
  = parseGasLimit (InString "30000000").
Proof.
  apply (proj1 parseGasLimit_ignores_padding " " "30000000" " "); reflexivity.
Defined.

(** ** The outcomes of the validator *)

Lemma strictEq_zero_decide (x : JsNumber) :
  isNaN x = false -> strictEq x (ofZ 0) = bool_decide (x = ofZ 0).
Proof. by destruct x. Qed.

Lemma parseGasLimit_number_outcome (x : JsNumber) :
  String.eqb (trim (toString x)) EmptyString = false ->
  parseGasLimit (InNumber x) =
    if isNaN x then Throw "Gas Limit is not valid gasLimit=NaN"
    else if bool_decide (x = ofZ 0) then Throw "Gas Limit is not valid gasLimit=0"
    else Return x.
Proof.
  intros Hblank. unfold parseGasLimit.
  cbn [typeOf template Number String.eqb negb andb orb]. rewrite Hblank.
  destruct (isNaN x) eqn:Hnan; [by destruct x |].
  cbn [orb]. rewrite strictEq_zero_decide by done.
  case_bool_decide as Hz; [by rewrite Hz | done].
Qed.

Lemma parseGasLimit_string_outcome (s : string) :
  parseGasLimit (InString s) =
    if allChars isWhiteSpace s then Throw "Not valid Gas Limit"
    else if isNaN (stringToNumber s) then Throw "Gas Limit is not valid gasLimit=NaN"
    else if bool_decide (stringToNumber s = ofZ 0)
         then Throw "Gas Limit is not valid gasLimit=0"
    else Return (stringToNumber s).
Proof.
  unfold parseGasLimit. cbn [typeOf template Number String.eqb negb andb orb].
  rewrite trim_blank. destruct (allChars isWhiteSpace s); [done |].
  destruct (isNaN (stringToNumber s)) eqn:Hnan;
    [by destruct (stringToNumber s) |].
  cbn [orb]. rewrite strictEq_zero_decide by done.
  case_bool_decide as Hz; [by rewrite Hz | done].
Qed.

(** X2. What parseGasLimit does, outcome by outcome.  A string of white
    space only (the empty string included) throws "Not valid Gas Limit"; any
    other string that converts to NaN throws "Gas Limit is not valid
    gasLimit=NaN", one that converts to zero throws "Gas Limit is not valid
    gasLimit=0", and every other string returns its number.  A number is
    never rejected with the first message. *)
Theorem parseGasLimit_outcomes :
  (forall s : string,
     parseGasLimit (InString s) =
       if allChars isWhiteSpace s then Throw "Not valid Gas Limit"
       else if isNaN (stringToNumber s) then Throw "Gas Limit is not valid gasLimit=NaN"
       else if bool_decide (stringToNumber s = ofZ 0)
            then Throw "Gas Limit is not valid gasLimit=0"
       else Return (stringToNumber s))
  /\ (forall x : JsNumber,
        canonical x = true ->
        parseGasLimit (InNumber x) =
          if isNaN x then Throw "Gas Limit is not valid gasLimit=NaN"
          else if bool_decide (x = ofZ 0) then Throw "Gas Limit is not valid gasLimit=0"
          else Return x).
Proof.
  split; [exact parseGasLimit_string_outcome |].
  intros x Hcan. apply parseGasLimit_number_outcome.
  destruct (toString_reads_back x Hcan) as (_ & -> & H). exact H.
Qed.

(** The validator on the numbers 1.5 and 0. *)
Lemma parseGasLimit_outcomes_witness :
  parseGasLimit (InNumber (Finite 15 1)) = Return (Finite 15 1)
  /\ parseGasLimit (InNumber (ofZ 0)) = Throw "Gas Limit is not valid gasLimit=0".
Proof.
  split.
  - exact (proj2 parseGasLimit_outcomes (Finite 15 1) eq_refl).
  - exact (proj2 parseGasLimit_outcomes (ofZ 0) eq_refl).
Defined.

Lemma parseGasLimit_string_throws (s msg : string) :
  parseGasLimit (InString s) = Throw msg -> In msg gasLimitErrors.
Proof.
  rewrite parseGasLimit_string_outcome. unfold gasLimitErrors.
  destruct (allChars isWhiteSpace s); [intros [= <-]; simpl; tauto |].
  destruct (isNaN (stringToNumber s)); [intros [= <-]; simpl; tauto |].
  case_bool_decide; [intros [= <-]; simpl; tauto | discriminate].
Qed.

(** X3. Among the request decoders only that of setGasLimit can throw, and
    what it throws is one of the three messages of parseGasLimit. *)
Theorem only_setGasLimit_rejects (m : Api.method) (w : Req m) (msg : string) :
  parseReq (getReqSerializers m) w = Throw msg ->
  m = Api.setGasLimit /\ In msg gasLimitErrors.
Proof.
  destruct m; cbn [getReqSerializers reqEmpty pubkeysBodySerializer
                     pubkeyParamSerializer parseReq]; try discriminate.
  intros H. split; [reflexivity |].
  destruct (parseGasLimit (InString (Wire.gas_limit (body w)))) as [g | msg'] eqn:E;
    [discriminate H |].
  injection H as <-. by eapply parseGasLimit_string_throws.
Qed.

(** The decoder of setGasLimit on the gas_limit "abc". *)
Lemma only_setGasLimit_rejects_witness :
  Api.setGasLimit = Api.setGasLimit
  /\ In "Gas Limit is not valid gasLimit=NaN" gasLimitErrors.
Proof.
  exact (only_setGasLimit_rejects Api.setGasLimit
           (mkReq (Wire.mkPubkeyParams "0xaa") (Wire.mkGasLimitBody "abc"))
           "Gas Limit is not valid gasLimit=NaN" eq_refl).
Defined.

(** ** Decoding and encoding again *)

Lemma other_serializers_args_round_trip (m : Api.method) (a : Args m) :
  m <> Api.setGasLimit ->
  parseReq (getReqSerializers m) (writeReq (getReqSerializers m) a) = Return a.
Proof.
  intros Hm. destruct m; try (exfalso; by apply Hm); cbn [Args] in a;
    try reflexivity;
    match type of a with
    | unit => destruct a
    | (_ * _ * _)%type => destruct a as [[? ?] ?]
    | (_ * _)%type => destruct a as [? ?]
    end; reflexivity.
Qed.

Lemma parseGasLimit_accepted (s : string) (g : JsNumber) :
  parseGasLimit (InString s) = Return g ->
  g = stringToNumber s /\ canonical g = true /\ isNaN g = false /\ g <> ofZ 0.
Proof.
  rewrite parseGasLimit_string_outcome.
  destruct (allChars isWhiteSpace s); [discriminate |].
  destruct (isNaN (stringToNumber s)) eqn:Hnan; [discriminate |].
  case_bool_decide as Hz; [discriminate |].
  intros [= <-]. split; [done |]. split; [apply canonical_stringToNumber | done].
Qed.

(** X4. Arguments that come out of a decoder survive another trip: if
    parseReq accepts a wire request and returns a, then writing a and
    parsing again returns a, and the request written for a is reproduced
    by parsing and writing.  For setGasLimit this says a gas_limit such as
    " 030 " is normalised once and for all. *)
Theorem parseReq_writeReq_parseReq (m : Api.method) (w : Req m) (a : Args m) :
  parseReq (getReqSerializers m) w = Return a ->
  parseReq (getReqSerializers m) (writeReq (getReqSerializers m) a) = Return a
  /\ wireRoundTrip (getReqSerializers m) (writeReq (getReqSerializers m) a).
Proof.
  intros Hparse.
  assert (Hargs : parseReq (getReqSerializers m) (writeReq (getReqSerializers m) a)
                  = Return a).
  { destruct (decide (m = Api.setGasLimit)) as [-> | Hm];
      [| by apply other_serializers_args_round_trip].
    cbn [Args Req] in *. destruct a as [pubkey g].
    cbn [getReqSerializers writeReq parseReq body params Wire.gas_limit Wire.pubkey] in *.
    destruct (parseGasLimit (InString (Wire.gas_limit (body w)))) as [g' |] eqn:E;
      [| discriminate Hparse].
    injection Hparse as _ ->.
    destruct (parseGasLimit_accepted _ _ E) as (_ & Hcan & Hnan & Hne).
    by rewrite (proj1 (parseGasLimit_printed g Hcan Hnan Hne)). }
  split; [exact Hargs |]. by exists a.
Qed.

(** The serializer of setGasLimit after decoding the gas_limit " 030 ". *)
Lemma parseReq_writeReq_parseReq_witness :
  let s := getReqSerializers Api.setGasLimit in
  parseReq s (writeReq s ("0xaa", ofZ 30)) = Return ("0xaa", ofZ 30)
  /\ wireRoundTrip s (writeReq s ("0xaa", ofZ 30)).
Proof.
  exact (parseReq_writeReq_parseReq Api.setGasLimit
           (mkReq (Wire.mkPubkeyParams "0xaa") (Wire.mkGasLimitBody " 030 "))
           ("0xaa", ofZ 30) eq_refl).
Defined.

(** X5. writeReq is injective: for every operation, two argument tuples
    written to the same wire request are equal (for setGasLimit, the base-10
    string determines the gas limit). *)
Theorem writeReq_injective :
  (forall (m : Api.method) (a b : Args m),
     m <> Api.setGasLimit ->
     writeReq (getReqSerializers m) a = writeReq (getReqSerializers m) b -> a = b)
  /\ (forall (pubkey1 pubkey2 : string) (g1 g2 : JsNumber),
        canonical g1 = true -> canonical g2 = true ->
        writeReq (getReqSerializers Api.setGasLimit) (pubkey1, g1)
        = writeReq (getReqSerializers Api.setGasLimit) (pubkey2, g2) ->
        pubkey1 = pubkey2 /\ g1 = g2).
Proof.
  split.
  - intros m a b Hm Hw.
    pose proof (other_serializers_args_round_trip m a Hm) as Ha.
    pose proof (other_serializers_args_round_trip m b Hm) as Hb.
    rewrite Hw, Hb in Ha. by injection Ha.
  - intros pubkey1 pubkey2 g1 g2 H1 H2.
    cbn [getReqSerializers writeReq]. intros [= -> Hs]. split; [done |].
    destruct (toString_reads_back g1 H1) as (<- & _).
    destruct (toString_reads_back g2 H2) as (<- & _).
    by rewrite Hs.
Qed.

(** The serializers of deleteKeys and setGasLimit at equal requests. *)
Lemma writeReq_injective_witness :
  (["0xaa"] : list string) = ["0xaa"]
  /\ ("0xaa" = "0xaa" /\ Finite 15 1 = Finite 15 1).
Proof.
  split.
  - apply (proj1 writeReq_injective Api.deleteKeys); [discriminate | reflexivity].
  - apply (proj2 writeReq_injective "0xaa" "0xaa" (Finite 15 1) (Finite 15 1));
      reflexivity.
Defined.

(** ** Literals the validator accepts *)







(** ** The tables against each other *)

(** X8. A route overrides the success status exactly when its operation
    has no return type: operations with an entry in getReturnTypes keep the
    default, and those without one answer 202 when they are a POST and 204
    when they are a DELETE. *)
Theorem status_override_iff_no_return_type (m : Api.method) :
  exists r : RouteDef,
    routeOf (Api.name m) routesData = Some r
    /\ statusOk r =
         match returnTypeOf m with
         | Some _ => None
         | None => Some (match method r with DELETE => 204 | _ => 202 end)
         end.
Proof. destruct m; eexists; split; reflexivity. Qed.

(** X9. The schema of each serializer written in the file agrees with its
    request type in ReqTypes: it requires exactly the declared path
    parameters, as required strings, and checks the body as an object
    exactly when the request type has a body. *)
Theorem schema_matches_request_type (m : Api.method) :
  m <> Api.listKeys -> m <> Api.listRemoteKeys ->
  schemaFor <$> lookupKey (Api.name m) ReqTypes = Some (schema (getReqSerializers m)).
Proof. intros H1 H2. destruct m; try reflexivity; by exfalso. Qed.

(** The schema of setGasLimit. *)
Lemma schema_matches_request_type_witness :
  schemaFor <$> lookupKey "setGasLimit" ReqTypes
  = Some (mkSchema [("pubkey", SchemaStringRequired)] (Some SchemaObject)).
Proof.
  apply (schema_matches_request_type Api.setGasLimit); discriminate.
Defined.

(** X10. Every path of the route table answers to each of GET, POST and
    DELETE with exactly one operation. *)
Theorem every_path_has_each_method (e : string * RouteDef) (meth : HttpMethod) :
  In e routesData -> length (dispatch meth (url (snd e))) = 1%nat.
Proof.
  intros He. unfold routesData in He. cbn [In] in He.
  repeat (destruct He as [<- | He]; [by destruct meth |]).
  destruct He.
Qed.

(** The gas-limit path under POST. *)
Lemma every_path_has_each_method_witness :
  length (dispatch POST "/eth/v1/validator/{pubkey}/gas_limit") = 1%nat.
Proof.
  apply (every_path_has_each_method
           ("getGasLimit", mkRoute "/eth/v1/validator/{pubkey}/gas_limit" GET None) POST).
  do 9 right. left. reflexivity.
Defined.

(** X11. The verb of an operation name fixes its HTTP method: delete
    operations are DELETE, import and set operations are POST, and the
    others (list, get) are GET. *)
Theorem method_follows_verb (m : Api.method) :
  method <$> routeOf (Api.name m) routesData = Some (verbMethod (Api.name m)).
Proof. by destruct m. Qed.

(** X12. Whether a request carries a body follows from its method: a GET
    never has a body, a POST always has one, and a DELETE has one exactly
    when it has no path parameter. *)
Theorem body_follows_method (m : Api.method) :
  exists (meth : HttpMethod) (params body : option TsType),
    wireShape m = Some (meth, params, body)
    /\ match meth with
       | GET => body = None
       | POST => is_Some body
       | DELETE => is_Some body <-> params = None
       end.
Proof.
  destruct m; eexists _, _, _; (split; [reflexivity |]); cbn; eauto;
    split; intros H; try done; by destruct H.
Qed.

(** X13. The statuses of the remote-key operations are statuses of the
    local ones: remote and local import have the same wire values, and the
    wire values of remote deletion are those of local deletion except
    not_active. *)
Theorem remote_statuses_are_local_statuses :
  (forall s : ImportRemoteKeyStatus.t,
     exists s' : ImportStatus.t, ImportStatus.value s' = ImportRemoteKeyStatus.value s)
  /\ (forall s : ImportStatus.t,
        exists s' : ImportRemoteKeyStatus.t,
          ImportRemoteKeyStatus.value s' = ImportStatus.value s)
  /\ (forall s : DeleteRemoteKeyStatus.t,
        exists s' : DeletionStatus.t,
          DeletionStatus.value s' = DeleteRemoteKeyStatus.value s)
  /\ (forall s : DeletionStatus.t,
        (exists s' : DeleteRemoteKeyStatus.t,
           DeleteRemoteKeyStatus.value s' = DeletionStatus.value s)
        <-> s <> DeletionStatus.not_active).
Proof.
  split; [| split; [| split]].
  - intros [];
      [exists ImportStatus.imported | exists ImportStatus.duplicate
      | exists ImportStatus.error]; reflexivity.
  - intros [];
      [exists ImportRemoteKeyStatus.imported | exists ImportRemoteKeyStatus.duplicate
      | exists ImportRemoteKeyStatus.error]; reflexivity.
  - intros [];
      [exists DeletionStatus.deleted | exists DeletionStatus.not_found
      | exists DeletionStatus.error]; reflexivity.
  - intros s. split.
    + intros [[] H] ->; discriminate H.
    + intros Hne. destruct s; try done;
        [exists DeleteRemoteKeyStatus.deleted | exists DeleteRemoteKeyStatus.not_found
        | exists DeleteRemoteKeyStatus.error]; reflexivity.
Qed.
